(** * DSAlign, [align/wavSplit.py]: framing and voice-activity segmentation

    A shallow embedding of [frame_generator] and [vad_collector].

    Python values are modelled as follows.
    - [int] is [Z]; [float] is an IEEE 754 binary64 number, Rocq's
      primitive [float] (both round to nearest, ties to even).
    - [bytes] is [list byte].
    - A raised exception is the [Raise] constructor of [result].
    - A generator is the list of values it yields, together with the way
      its body ends.  The source is Python 3: [/] between two [int]s is
      true division.
    - [sample_rate], [frame_duration_ms] and [padding_duration_ms] are
      [int]s and [threshold] is a [float], as [vad_segment_generator]
      passes them (16000, 30, 300 and 0.5). *)

From Stdlib Require Import ZArith List Lia Bool.
From Stdlib Require Import PrimFloat FloatOps SpecFloat FloatAxioms.
From Stdlib.Strings Require Import Byte.
Import ListNotations.
Open Scope Z_scope.

(** ** Python runtime pieces used by the source *)

Module Py.

Inductive exn : Type :=
| ZeroDivisionError
| OverflowError
| ValueError
| UnboundLocalError
| VadError.

Inductive result (A : Type) : Type :=
| Ok (a : A)
| Raise (e : exn).
Arguments Ok {A} a.
Arguments Raise {A} e.

Definition bind {A B : Type} (r : result A) (k : A -> result B) : result B :=
  match r with
  | Ok a => k a
  | Raise e => Raise e
  end.

(** The binary64 number nearest to an integer, infinite when the integer
    is out of range. *)
Definition float_of_Z (z : Z) : float :=
  SF2Prim (binary_normalize prec emax z 0 false).

(** Conversion of an [int] operand in mixed arithmetic, and [float(n)]:
    OverflowError when the integer is too large. *)
Definition float_of_int (z : Z) : result float :=
  let f := float_of_Z z in
  if is_infinity f then Raise OverflowError else Ok f.

(** [x / y] on floats: ZeroDivisionError on a zero divisor. *)
Definition float_div (x y : float) : result float :=
  if is_zero y then Raise ZeroDivisionError else Ok (x / y)%float.

(** [int(x)] on a float: truncation towards zero. *)
Definition int_of_float (f : float) : result Z :=
  match Prim2SF f with
  | S754_zero _ => Ok 0
  | S754_finite s m e =>
      let a := match e with
               | Z0 => Zpos m
               | Zpos _ => Zpos m * 2 ^ e
               | Zneg p => Zpos m / 2 ^ Zpos p
               end in
      Ok (if s then - a else a)
  | S754_infinity _ => Raise OverflowError
  | S754_nan => Raise ValueError
  end.

(** [a / b] on two ints: the correctly rounded quotient.  The quotient is
    first computed with more than 64 extra bits and a sticky bit, then
    rounded once; a zero quotient takes the sign of the divisor. *)
Definition int_truediv (a b : Z) : result float :=
  if b =? 0 then Raise ZeroDivisionError
  else
    let s := 64 + Z.log2 (Z.abs b) + 1 in
    let q := (Z.abs a * 2 ^ s) / Z.abs b in
    let sticky := if (Z.abs a * 2 ^ s) mod Z.abs b =? 0 then 0 else 1 in
    let m := 2 * q + sticky in
    let sm := if Z.sgn a * Z.sgn b <? 0 then - m else m in
    let f := SF2Prim (binary_normalize prec emax sm (- (s + 1)) (b <? 0)) in
    if is_infinity f then Raise OverflowError else Ok f.

(** [k > f] for an int [k] and a float [f]: the exact comparison. *)
Definition int_gt_float (k : Z) (f : float) : bool :=
  match Prim2SF f with
  | S754_nan => false
  | S754_infinity s => s
  | S754_zero _ => 0 <? k
  | S754_finite s m e =>
      let v := if s then Zneg m else Zpos m in
      match e with
      | Zneg p => v <? k * 2 ^ Zpos p
      | _ => v * 2 ^ e <? k
      end
  end.

(** [len(l)] *)
Definition len {A : Type} (l : list A) : Z := Z.of_nat (length l).

(** [l[lo:hi]], with Python's treatment of negative and out-of-range
    bounds. *)
Definition slice {A : Type} (l : list A) (lo hi : Z) : list A :=
  let clamp i := if i <? 0 then Z.max 0 (i + len l) else Z.min i (len l) in
  firstn (Z.to_nat (clamp hi - clamp lo)) (skipn (Z.to_nat (clamp lo)) l).

End Py.
Import Py.

Notation "'let!' x ':=' e 'in' k" := (Py.bind e (fun x => k))
  (at level 10, x pattern, e at level 100, k at level 200).

(** ** [class Frame] *)

Record Frame : Type := mkFrame {
  bytes : list byte;
  timestamp : float;
  duration : float
}.

(** ** [frame_generator] *)

(** [n = int(sample_rate * (frame_duration_ms / 1000.0) * 2)] *)
Definition frame_len (sample_rate frame_duration_ms : Z) : result Z :=
  let! fd := float_of_int frame_duration_ms in
  let! sr := float_of_int sample_rate in
  int_of_float (sr * (fd / 1000) * 2)%float.

(** [duration = (float(n) / sample_rate) / 2.0] *)
Definition frame_duration (n sample_rate : Z) : result float :=
  let! fn := float_of_int n in
  let! sr := float_of_int sample_rate in
  let! q := float_div fn sr in
  Ok (q / 2)%float.

(** The [while] loop.  [None] means that the fuel ran out before the loop
    condition became false. *)
Fixpoint frame_loop (fuel : nat) (n : Z) (dur : float) (audio : list byte)
    (offset : Z) (ts : float) : option (list Frame) :=
  match fuel with
  | O => None
  | S fuel' =>
      if offset + n <? len audio then
        match frame_loop fuel' n dur audio (offset + n) (ts + dur)%float with
        | Some fs => Some (mkFrame (slice audio offset (offset + n)) ts dur :: fs)
        | None => None
        end
      else Some []
  end.

Definition frame_generator (fuel : nat) (frame_duration_ms : Z)
    (audio : list byte) (sample_rate : Z) : result (option (list Frame)) :=
  let! n := frame_len sample_rate frame_duration_ms in
  let! dur := frame_duration n sample_rate in
  Ok (frame_loop fuel n dur audio 0 0%float).

(** ** [vad_collector] *)

(** A yielded tuple [(bytes, start_ms, end_ms)]. *)
Definition Segment : Type := (list byte * Z * Z)%type.

Definition start_ms (s : Segment) : Z := snd (fst s).
Definition end_ms (s : Segment) : Z := snd s.

(** [num_padding_frames = int(padding_duration_ms / frame_duration_ms)] *)
Definition num_padding_frames (padding_duration_ms frame_duration_ms : Z)
    : result Z :=
  let! q := int_truediv padding_duration_ms frame_duration_ms in
  int_of_float q.

(** [collections.deque(maxlen=m)]: the bound must be a non-negative
    machine-size integer.  The deque itself is the list of its entries,
    oldest first. *)
Definition deque_new (m : Z) : result Z :=
  if m <? 0 then Raise ValueError
  else if 2 ^ 63 <=? m then Raise OverflowError
  else Ok m.

(** [d.append(x)]: the oldest entry leaves when the bound is exceeded. *)
Definition deque_append {A : Type} (maxlen : Z) (d : list A) (x : A) : list A :=
  let d' := d ++ [x] in
  if maxlen <? len d' then tl d' else d'.

(** The local variables that live across iterations. *)
Record state : Type := mkState {
  ring_buffer : list (Frame * bool);
  triggered : bool;
  voiced_frames : list Frame
}.

Definition init_state : state := mkState [] false [].

(** [len([f for f, speech in ring_buffer if speech])] *)
Definition num_voiced (rb : list (Frame * bool)) : Z :=
  len (filter (fun p => snd p) rb).

(** [len([f for f, speech in ring_buffer if not speech])] *)
Definition num_unvoiced (rb : list (Frame * bool)) : Z :=
  len (filter (fun p => negb (snd p)) rb).

(** [b''.join([f.bytes for f in voiced_frames])] *)
Definition join_bytes (fs : list Frame) : list byte := concat (map bytes fs).

(** [k > threshold * ring_buffer.maxlen].  The bound of a deque is below
    [2 ^ 63], so its conversion to float cannot overflow. *)
Definition exceeds (threshold : float) (maxlen k : Z) : bool :=
  int_gt_float k (threshold * float_of_Z maxlen)%float.

(** How a generator's body ended, with what it yielded before and the
    classifier as it was left. *)
Record Run (V : Type) : Type := mkRun {
  segments : list Segment;
  ending : result unit;
  vad_after : V
}.
Arguments mkRun {V} _ _ _.
Arguments segments {V} _.
Arguments ending {V} _.
Arguments vad_after {V} _.

Section Collector.

(** The classifier object: [is_speech v b r] is the call
    [vad.is_speech(b, r)] on a classifier in condition [v]. *)
Variable V : Type.
Variable is_speech : V -> list byte -> Z -> result bool * V.

Variable sample_rate frame_duration_ms : Z.
Variable threshold : float.
Variable maxlen : Z.

(** The body of the [for] loop after the classifier has answered. *)
Definition collect_frame (frame_index : Z) (frame : Frame) (speech : bool)
    (st : state) : state * list Segment :=
  if negb (triggered st) then
    let rb := deque_append maxlen (ring_buffer st) (frame, speech) in
    if exceeds threshold maxlen (num_voiced rb) then
      (mkState [] true (voiced_frames st ++ map fst rb), [])
    else
      (mkState rb false (voiced_frames st), [])
  else
    let vf := voiced_frames st ++ [frame] in
    let rb := deque_append maxlen (ring_buffer st) (frame, speech) in
    if exceeds threshold maxlen (num_unvoiced rb) then
      (mkState [] false [],
       [(join_bytes vf,
         frame_duration_ms * Z.max 0 (frame_index - len vf),
         frame_duration_ms * frame_index)])
    else
      (mkState rb true vf, []).

(** [for frame_index, frame in enumerate(frames)], from index [i] on.
    [last] is the variable [frame_index], [None] while unbound.  The
    result is what was yielded, the locals at loop exit (or the
    exception that ended the loop) and the classifier. *)
Fixpoint collect_loop (i : Z) (last : option Z) (frames : list Frame)
    (st : state) (v : V)
    : list Segment * result (state * option Z) * V :=
  match frames with
  | [] => ([], Ok (st, last), v)
  | frame :: rest =>
      match is_speech v (bytes frame) sample_rate with
      | (Raise e, v') => ([], Raise e, v')
      | (Ok speech, v') =>
          let '(st', out) := collect_frame i frame speech st in
          let '(segs, r, v'') := collect_loop (i + 1) (Some i) rest st' v' in
          (out ++ segs, r, v'')
      end
  end.

(** The code after the loop. *)
Definition flush (st : state) (last : option Z) : result (list Segment) :=
  match voiced_frames st with
  | [] => Ok []
  | _ :: _ =>
      match last with
      | None => Raise UnboundLocalError
      | Some frame_index =>
          Ok [(join_bytes (voiced_frames st),
               frame_duration_ms * (frame_index - len (voiced_frames st)),
               frame_duration_ms * (frame_index + 1))]
      end
  end.

(** The generator body once the deque exists. *)
Definition collect (frames : list Frame) (v : V) : Run V :=
  match collect_loop 0 None frames init_state v with
  | (segs, Raise e, v') => mkRun segs (Raise e) v'
  | (segs, Ok (st, last), v') =>
      match flush st last with
      | Raise e => mkRun segs (Raise e) v'
      | Ok tail => mkRun (segs ++ tail) (Ok tt) v'
      end
  end.

End Collector.

(** [ring_buffer = collections.deque(maxlen=num_padding_frames)]: the
    bound of the new deque. *)
Definition new_ring_buffer (padding_duration_ms frame_duration_ms : Z)
    : result Z :=
  let! m := num_padding_frames padding_duration_ms frame_duration_ms in
  deque_new m.

Definition vad_collector {V : Type} (sample_rate frame_duration_ms
    padding_duration_ms : Z) (threshold : float)
    (is_speech : V -> list byte -> Z -> result bool * V) (vad : V)
    (frames : list Frame) : Run V :=
  match new_ring_buffer padding_duration_ms frame_duration_ms with
  | Raise e => mkRun [] (Raise e) vad
  | Ok maxlen =>
      collect V is_speech sample_rate frame_duration_ms threshold maxlen
        frames vad
  end.

(** ** [vad_segment_generator] *)

(** What the decoder hands over, [AudioSegment.from_file(audio_file)
    .set_channels(1).set_frame_rate(16000)]: the fields the code reads. *)
Record AudioSegment : Type := mkAudio {
  raw_data : list byte;
  frame_rate : Z;
  duration_seconds : float
}.

(** [vad_collector(audio.frame_rate, 30, 300, 0.5, vad, frames)] run to
    its end over [frames = frame_generator(30, audio.raw_data,
    audio.frame_rate)].  The deque is made first; the framer's set-up runs
    when the loop asks for the first frame.  [None]: the framer was still
    yielding when the fuel ran out. *)
Definition vad_segments {V : Type} (fuel : nat) (audio : AudioSegment)
    (is_speech : V -> list byte -> Z -> result bool * V) (vad : V)
    : option (Run V) :=
  match new_ring_buffer 300 30 with
  | Raise e => Some (mkRun [] (Raise e) vad)
  | Ok _ =>
      match frame_generator fuel 30 (raw_data audio) (frame_rate audio) with
      | Raise e => Some (mkRun [] (Raise e) vad)
      | Ok None => None
      | Ok (Some frames) =>
          Some (vad_collector (frame_rate audio) 30 300 0.5 is_speech vad
                  frames)
      end
  end.

(** The returned tuple [(segments, audio.frame_rate,
    audio.duration_seconds * 1000)]; [vad] is the classifier
    [Vad(int(aggressiveness))]. *)
Definition vad_segment_generator {V : Type} (fuel : nat)
    (audio : AudioSegment)
    (is_speech : V -> list byte -> Z -> result bool * V) (vad : V)
    : option (Run V) * Z * float :=
  (vad_segments fuel audio is_speech vad, frame_rate audio,
   (duration_seconds audio * 1000)%float).

(** ** Classifiers used to state the properties *)

(** A classifier that replays a script of answers, one per call. *)
Definition scripted (script : list (result bool)) (_ : list byte) (_ : Z)
    : result bool * list (result bool) :=
  match script with
  | [] => (Raise VadError, [])
  | r :: rest => (r, rest)
  end.

(** A classifier that answers [True] to every call. *)
Definition always_voiced (u : unit) (_ : list byte) (_ : Z)
    : result bool * unit := (Ok true, u).

(** A classifier that also records the arguments of every call. *)
Definition logged {V : Type}
    (is_speech : V -> list byte -> Z -> result bool * V)
    (vl : V * list (list byte * Z)) (b : list byte) (r : Z)
    : result bool * (V * list (list byte * Z)) :=
  let '(v, log) := vl in
  let '(ans, v') := is_speech v b r in
  (ans, (v', log ++ [(b, r)])).

(** ** Vocabulary of the properties *)

(** The float reached from [0.0] by [k] successive [timestamp += d]. *)
Fixpoint accumulate (k : nat) (d : float) : float :=
  match k with
  | O => 0%float
  | S k' => (accumulate k' d + d)%float
  end.

(** A finite float as [(m, e)], standing for the number [m * 2^e]. *)
Definition dyadic (f : float) : option (Z * Z) :=
  match Prim2SF f with
  | S754_zero _ => Some (0, 0)
  | S754_finite s m e => Some (if s then Zneg m else Zpos m, e)
  | _ => None
  end.

(** [x] is [k] times [d], as numbers, without rounding. *)
Definition exactly_times (k : Z) (x d : float) : bool :=
  match dyadic x, dyadic d with
  | Some (mx, ex), Some (md, ed) =>
      let e := Z.min ex ed in
      mx * 2 ^ (ex - e) =? k * md * 2 ^ (ed - e)
  | _, _ => false
  end.

(** The number of offsets [0, n, 2n, ...] with [offset + n < L]. *)
Definition frame_count (n L : Z) : nat := Z.to_nat ((L - 1) / n).

(** The frame that starts at byte [k * n]. *)
Definition frame_at (n : Z) (dur : float) (audio : list byte) (k : nat)
    : Frame :=
  mkFrame (slice audio (Z.of_nat k * n) (Z.of_nat k * n + n))
          (accumulate k dur) dur.

(** The answers a classifier gives when asked about the frames in order,
    up to and including the first exception. *)
Fixpoint answers {V : Type}
    (is_speech : V -> list byte -> Z -> result bool * V) (sample_rate : Z)
    (v : V) (frames : list Frame) : list (result bool) :=
  match frames with
  | [] => []
  | f :: rest =>
      match is_speech v (bytes f) sample_rate with
      | (Ok b, v') => Ok b :: answers is_speech sample_rate v' rest
      | (Raise e, _) => [Raise e]
      end
  end.

(** Segments that each start no earlier than [prev] or than the end of
    the one before, and end after they start. *)
Fixpoint chained (prev : Z) (segs : list Segment) : Prop :=
  match segs with
  | [] => True
  | s :: rest => prev <= start_ms s /\ start_ms s < end_ms s
                 /\ chained (end_ms s) rest
  end.

(** The duration of a 960-byte frame at 16000 Hz: the binary64 number
    nearest to 0.03. *)
Definition d30 : float := 0x1.eb851eb851eb8p-6%float.

(** Silent inputs of 2999 and of 10561 bytes. *)
Definition pcm_2999 : list byte := repeat x00 (Z.to_nat 2999).
Definition pcm_10561 : list byte := repeat x00 (Z.to_nat 10561).

(** A one-byte frame, and the frames numbered [0 .. k-1]. *)
Definition sample_frame (k : nat) : Frame :=
  mkFrame [nth k [x00; x01; x02; x03; x04; x05; x06; x07; x08; x09; x0a;
                  x0b; x0c; x0d; x0e; x0f; x10; x11; x12; x13; x14] xff]
          (accumulate k d30) d30.

Definition sample_frames (k : nat) : list Frame := map sample_frame (seq 0 k).

(** Classifier answers for a 21-frame run with a two-entry window: voiced
    at frames 0-3 and 6-18, unvoiced at 4, 5, 19 and 20. *)
Definition script_21 : list (result bool) :=
  map Ok ([true; true; true; true; false; false]
          ++ repeat true 13 ++ [false; false]).

(** The condition of the classifier and of the locals after the first
    [k] frames, when the run got that far. *)
Definition state_after {V : Type}
    (is_speech : V -> list byte -> Z -> result bool * V)
    (sample_rate frame_duration_ms : Z) (threshold : float) (maxlen : Z)
    (frames : list Frame) (v : V) (k : nat) (st : state) : Prop :=
  exists segs last v',
    collect_loop V is_speech sample_rate frame_duration_ms threshold maxlen
      0 None (firstn k frames) init_state v = (segs, Ok (st, last), v').

(** The end of the last segment, or [prev] when there is none. *)
Fixpoint last_end (prev : Z) (segs : list Segment) : Z :=
  match segs with
  | [] => prev
  | s :: rest => last_end (end_ms s) rest
  end.

(** What the locals satisfy before the frame of index [i], when the last
    frame that ended a segment had index [lo] ([-1] if none did): the
    frames held back in the buffer or collected in [voiced_frames] all came
    after frame [lo]. *)
Definition bounded_by (i lo : Z) (st : state) : Prop :=
  -1 <= lo < i /\
  (triggered st = false ->
   voiced_frames st = [] /\ len (ring_buffer st) <= i - (lo + 1)) /\
  (triggered st = true ->
   1 <= i /\ len (voiced_frames st) <= i - (lo + 1)).

(** The segments yielded inside the loop are cut out of the frame list
    one after the other: each holds the frames [a .. b-1], none before
    index [lo], and [rest] holds of the index after the last one. *)
Fixpoint cut_from (fd : Z) (frames : list Frame) (lo : Z)
    (segs : list Segment) (rest : Z -> Prop) : Prop :=
  match segs with
  | [] => rest lo
  | s :: more =>
      exists a b,
        lo <= a /\ a < b /\ b <= len frames /\
        s = (concat (map bytes (slice frames a b)),
             fd * Z.max 0 (a - 1), fd * (b - 1)) /\
        cut_from fd frames b more rest
  end.

(** Before the frame of index [i]: the buffer (when NOT_TRIGGERED) or
    [voiced_frames] (when TRIGGERED) holds the frames [a .. i-1] of the
    input [all], for some [a] not before [lo], the index after the last
    frame that went into a segment. *)
Definition holds_run (all : list Frame) (i lo : Z) (st : state) : Prop :=
  0 <= lo <= i /\ i <= len all /\
  (triggered st = false ->
   voiced_frames st = [] /\
   exists a, lo <= a <= i /\ map fst (ring_buffer st) = slice all a i) /\
  (triggered st = true ->
   exists a, lo <= a <= i /\ voiced_frames st = slice all a i).

(** A frame reduced to its bytes, and the locals with every frame so
    reduced. *)
Definition bare (f : Frame) : Frame := mkFrame (bytes f) 0 0.

Definition bare_state (st : state) : state :=
  mkState (map (fun p => (bare (fst p), snd p)) (ring_buffer st))
          (triggered st)
          (map bare (voiced_frames st)).

(** A recording whose frame rate reads 0. *)
Definition audio_rate_0 : AudioSegment := mkAudio pcm_2999 0 0.

(** A decoded recording of 10561 silent bytes at 16000 Hz. *)
Definition audio_10561 : AudioSegment := mkAudio pcm_10561 16000 0.330078125.

(** A classifier that answers [False] to every call. *)
Definition never_voiced (u : unit) (_ : list byte) (_ : Z)
    : result bool * unit := (Ok false, u).

(** Ordered and non-overlapping in time. *)
Definition ordered (segs : list Segment) : Prop :=
  (forall s, In s segs -> start_ms s < end_ms s) /\
  (forall pre a b post, segs = pre ++ a :: b :: post ->
     end_ms a <= start_ms b).

(** ** The framer *)

Lemma firstn_plus {A : Type} (a b : nat) (l : list A) :
  firstn (a + b) l = firstn a l ++ firstn b (skipn a l).
Proof.
  revert l. induction a as [| a IH]; intros [| x l]; cbn; try reflexivity.
  - now rewrite firstn_nil.
  - now rewrite IH.
Qed.

Section FramerFacts.

Variable n : Z.
Variable dur : float.
Variable audio : list byte.
Hypothesis n_pos : 0 < n.

Lemma frame_count_spec (k : nat) :
  (Z.of_nat k * n + n <? len audio) = (k <? frame_count n (len audio))%nat.
Proof.
  unfold frame_count.
  destruct (Z.ltb_spec (Z.of_nat k * n + n) (len audio)) as [H | H];
    symmetry.
  - apply Nat.ltb_lt.
    assert (Z.of_nat k + 1 <= (len audio - 1) / n)
      by (apply Z.div_le_lower_bound; nia).
    lia.
  - apply Nat.ltb_ge.
    destruct (Z_lt_le_dec ((len audio - 1) / n) 0) as [Hneg | Hnn]; [lia|].
    assert ((len audio - 1) / n < Z.of_nat k + 1)
      by (apply Z.div_lt_upper_bound; nia).
    lia.
Qed.

(** The loop started at the [k]-th offset with the [k]-th timestamp
    yields the frames [k, k+1, ...] and stops. *)
Lemma frame_loop_closed (c k fuel : nat) :
  (k + c = frame_count n (len audio))%nat ->
  (c < fuel)%nat ->
  frame_loop fuel n dur audio (Z.of_nat k * n) (accumulate k dur)
  = Some (map (frame_at n dur audio) (seq k c)).
Proof.
  revert k fuel.
  induction c as [| c IH]; intros k fuel Hk Hfuel;
    (destruct fuel as [| fuel]; [lia |]); cbn [frame_loop].
  - rewrite frame_count_spec.
    replace (k <? frame_count n (len audio))%nat with false
      by (symmetry; apply Nat.ltb_ge; lia).
    reflexivity.
  - rewrite frame_count_spec.
    replace (k <? frame_count n (len audio))%nat with true
      by (symmetry; apply Nat.ltb_lt; lia).
    replace (Z.of_nat k * n + n) with (Z.of_nat (S k) * n) by lia.
    change (accumulate k dur + dur)%float with (accumulate (S k) dur).
    rewrite (IH (S k) fuel) by lia.
    cbn [seq map]. unfold frame_at at 2.
    replace (Z.of_nat (S k) * n) with (Z.of_nat k * n + n) by lia.
    reflexivity.
Qed.

Lemma slice_in_range (lo hi : Z) :
  0 <= lo <= hi -> hi <= len audio ->
  slice audio lo hi
  = firstn (Z.to_nat (hi - lo)) (skipn (Z.to_nat lo) audio).
Proof.
  intros Hlo Hhi. unfold slice.
  destruct (Z.ltb_spec hi 0); [lia|].
  destruct (Z.ltb_spec lo 0); [lia|].
  rewrite !Z.min_l by lia. reflexivity.
Qed.

(** Consecutive frames put end to end are one slice of the input. *)
Lemma frames_concat (c k : nat) :
  Z.of_nat (k + c) * n <= len audio ->
  concat (map bytes (map (frame_at n dur audio) (seq k c)))
  = slice audio (Z.of_nat k * n) (Z.of_nat (k + c) * n).
Proof.
  revert k. induction c as [| c IH]; intros k Hle.
  - cbn. rewrite slice_in_range by nia.
    replace (k + 0)%nat with k by lia.
    now rewrite Z.sub_diag.
  - cbn [seq map concat]. rewrite IH by (rewrite <- Hle; f_equal; lia).
    cbn [frame_at bytes].
    rewrite !slice_in_range by nia.
    replace (Z.to_nat (Z.of_nat (k + S c) * n - Z.of_nat k * n))
      with (Z.to_nat (Z.of_nat k * n + n - Z.of_nat k * n)
            + Z.to_nat (Z.of_nat (S k + c) * n - Z.of_nat (S k) * n))%nat
      by nia.
    rewrite firstn_plus. f_equal. f_equal.
    rewrite skipn_skipn. f_equal. nia.
Qed.

End FramerFacts.

Lemma float_of_int_Ok (z : Z) (f : float) :
  float_of_int z = Ok f -> f = float_of_Z z.
Proof.
  unfold float_of_int. destruct (is_infinity (float_of_Z z)); congruence.
Qed.

Lemma frame_duration_Ok (n sample_rate : Z) (d : float) :
  frame_duration n sample_rate = Ok d ->
  d = (float_of_Z n / float_of_Z sample_rate / 2)%float.
Proof.
  unfold frame_duration, float_div.
  destruct (float_of_int n) as [fn |] eqn:Hn; [| discriminate].
  destruct (float_of_int sample_rate) as [sr |] eqn:Hs; [| discriminate].
  apply float_of_int_Ok in Hn, Hs. subst fn sr. cbn [bind].
  destruct (is_zero (float_of_Z sample_rate)); cbn [bind]; congruence.
Qed.

(** With a positive frame length the generator stops, and what it yields
    is known in closed form: frame [k] holds the bytes
    [audio[k*n : k*n + n]], for exactly the [k] with [k*n + n < len(audio)]. *)
Lemma frame_generator_tiles (sample_rate frame_duration_ms n : Z)
    (d : float) (audio : list byte) (fuel : nat) :
  frame_len sample_rate frame_duration_ms = Ok n ->
  frame_duration n sample_rate = Ok d ->
  0 < n ->
  (frame_count n (len audio) < fuel)%nat ->
  frame_generator fuel frame_duration_ms audio sample_rate
  = Ok (Some (map (frame_at n d audio) (seq 0 (frame_count n (len audio))))).
Proof.
  intros Hn Hd Hpos Hfuel. unfold frame_generator.
  rewrite Hn. cbn [bind]. rewrite Hd. cbn [bind]. f_equal.
  apply (frame_loop_closed n d audio Hpos _ 0%nat fuel); [reflexivity | assumption].
Qed.

Lemma frame_count_le (n L : Z) :
  0 < n -> 0 <= L -> Z.of_nat (frame_count n L) * n <= L.
Proof.
  intros Hn HL. unfold frame_count.
  destruct (Z_lt_le_dec ((L - 1) / n) 0) as [Hneg | Hnn].
  - replace (Z.to_nat ((L - 1) / n)) with 0%nat by lia. lia.
  - rewrite Z2Nat.id by assumption.
    pose proof (Z.mul_div_le (L - 1) n Hn). lia.
Qed.

(** The frames do not overlap, and put end to end they are a prefix of
    the input. *)
Lemma frames_prefix (n : Z) (d : float) (audio : list byte) :
  0 < n ->
  let c := frame_count n (len audio) in
  concat (map bytes (map (frame_at n d audio) (seq 0 c)))
  = firstn (c * Z.to_nat n) audio
  /\ forall i j, (i < j < c)%nat -> Z.of_nat i * n + n <= Z.of_nat j * n.
Proof.
  intros Hn c. split.
  - pose proof (frame_count_le n (len audio) Hn ltac:(unfold len; lia)) as Hle.
    fold c in Hle.
    rewrite (frames_concat n d audio Hn c 0) by exact Hle.
    rewrite slice_in_range by (cbn; lia).
    cbn [Nat.add Z.of_nat Z.mul Z.to_nat skipn]. f_equal. nia.
  - intros i j Hij. nia.
Qed.

(** A full frame that would end exactly at the end of the input is not
    yielded. *)
Lemma frame_count_exact (n m : Z) :
  0 < n -> 0 < m -> frame_count n (m * n) = Z.to_nat (m - 1).
Proof.
  intros Hn Hm. unfold frame_count. f_equal.
  symmetry. apply (Z.div_unique _ _ _ (n - 1)); lia.
Qed.

(** At the pipeline's own setting, 16000 Hz and 30 ms, a frame is 960
    bytes long. *)
Example frame_len_16000_30 :
  frame_len 16000 30 = Ok 960 /\ 16000 * 30 * 2 / 1000 = 960.
Proof. split; vm_compute; reflexivity. Qed.

(** C4: at 48000 Hz and 9 ms the frame length the code computes is 863
    bytes, one less than floor(48000 * 9 / 1000 * 2) = 864, because
    [9 / 1000.0] and the product are rounded binary64 values; on a 2000-byte
    input the generator therefore yields two frames of 863 bytes, cut at
    offsets 0 and 863, where the stated length gives offsets 0 and 864. *)
Theorem frame_generator_48000_9 :
  frame_len 48000 9 = Ok 863 /\
  48000 * 9 * 2 / 1000 = 864 /\
  exists fs,
    frame_generator 3 9 (repeat x00 2000) 48000 = Ok (Some fs) /\
    map (fun f => len (bytes f)) fs = [863; 863] /\
    map bytes fs = [slice (repeat x00 2000) 0 863;
                    slice (repeat x00 2000) 863 1726].
Proof.
  split; [vm_compute; reflexivity |].
  split; [vm_compute; reflexivity |].
  eexists. split; [vm_compute; reflexivity |].
  split; vm_compute; reflexivity.
Qed.

(** C5: every frame of one run carries the same duration, the float
    [(float(n) / sample_rate) / 2.0]; frame 0 has timestamp [0.0] and
    frame [k] has the timestamp reached from [0.0] by adding the duration
    [k] times, each addition rounded. *)
Theorem frame_generator_timestamps (sample_rate frame_duration_ms n : Z)
    (d : float) (audio : list byte) (fuel : nat) :
  frame_len sample_rate frame_duration_ms = Ok n ->
  frame_duration n sample_rate = Ok d ->
  0 < n ->
  (length audio < fuel)%nat ->
  d = (float_of_Z n / float_of_Z sample_rate / 2)%float /\
  exists fs,
    frame_generator fuel frame_duration_ms audio sample_rate = Ok (Some fs) /\
    forall k f, nth_error fs k = Some f ->
      duration f = d /\
      timestamp f = accumulate k d /\
      timestamp f = match k with
                    | O => 0%float
                    | S k' => (accumulate k' d + d)%float
                    end.
Proof.
  intros Hn Hd Hpos Hfuel.
  split; [now apply frame_duration_Ok |].
  eexists. split.
  - apply (frame_generator_tiles _ _ n d); try assumption.
    pose proof (frame_count_le n (len audio) Hpos ltac:(unfold len; lia)).
    unfold len in *. nia.
  - intros k f Hk.
    rewrite nth_error_map in Hk.
    destruct (nth_error (seq 0 (frame_count n (len audio))) k) as [j |] eqn:Hj;
      [| discriminate].
    apply nth_error_In in Hj as Hin. apply in_seq in Hin.
    assert (j = k).
    { assert (k < length (seq 0 (frame_count n (len audio))))%nat as Hlt
        by (apply nth_error_Some; congruence).
      rewrite length_seq in Hlt.
      pose proof (nth_error_nth _ _ 0%nat Hj) as Hnth.
      rewrite seq_nth in Hnth by exact Hlt. lia. }
    subst j. cbn [option_map] in Hk. injection Hk as <-.
    cbn [frame_at duration timestamp].
    repeat split. now destruct k.
Qed.

Lemma frame_generator_timestamps_witness :
  exists fs,
    frame_generator (Z.to_nat 3000) 30 (pcm_2999) 16000 = Ok (Some fs) /\
    forall k f, nth_error fs k = Some f ->
      duration f = d30 /\
      timestamp f = accumulate k d30 /\
      timestamp f = match k with
                    | O => 0%float
                    | S k' => (accumulate k' d30 + d30)%float
                    end.
Proof.
  refine (proj2 (frame_generator_timestamps 16000 30 960 d30
                   (pcm_2999) (Z.to_nat 3000) _ _ _ _)).
  - vm_compute; reflexivity.
  - vm_compute; reflexivity.
  - lia.
  - unfold pcm_2999. rewrite repeat_length. lia.
Defined.

(** At 16000 Hz and 30 ms the eleventh frame's timestamp
    (0.30000000000000004) is not ten times the duration, neither as the
    float product [10 * duration] (0.3) nor as an exact number. *)
Lemma timestamp_not_multiple :
  ~ (forall fuel frame_duration_ms audio sample_rate fs k f,
       frame_generator fuel frame_duration_ms audio sample_rate = Ok (Some fs) ->
       nth_error fs k = Some f ->
       timestamp f = (float_of_Z (Z.of_nat k) * duration f)%float \/
       exactly_times (Z.of_nat k) (timestamp f) (duration f) = true).
Proof.
  intro H.
  specialize (H 12%nat 30 pcm_10561 16000
                (map (frame_at 960 d30 pcm_10561) (seq 0 11))
                10%nat
                (frame_at 960 d30 pcm_10561 10)).
  assert (Hrun : frame_generator 12 30 pcm_10561 16000
                 = Ok (Some (map (frame_at 960 d30 pcm_10561) (seq 0 11)))).
  { apply frame_generator_tiles; [vm_compute; reflexivity
                                 | vm_compute; reflexivity | lia |].
    vm_compute. lia. }
  destruct (H Hrun eq_refl) as [Hfloat | Hexact].
  - apply (f_equal Prim2SF) in Hfloat. vm_compute in Hfloat.
    discriminate Hfloat.
  - vm_compute in Hexact. discriminate Hexact.
Qed.

(** ** The segmenter *)

Lemma len_app {A : Type} (l1 l2 : list A) : len (l1 ++ l2) = len l1 + len l2.
Proof. unfold len. rewrite length_app. lia. Qed.

Lemma len_cons {A : Type} (x : A) (l : list A) : len (x :: l) = 1 + len l.
Proof. unfold len. cbn [length]. lia. Qed.

Lemma len_nonneg {A : Type} (l : list A) : 0 <= len l.
Proof. unfold len. lia. Qed.

Lemma deque_append_last {A : Type} (maxlen : Z) (d : list A) (x : A) :
  0 < maxlen -> exists d0, deque_append maxlen d x = d0 ++ [x].
Proof.
  intros Hm. unfold deque_append.
  destruct (Z.ltb_spec maxlen (len (d ++ [x]))) as [Hlt | Hge].
  - destruct d as [| y d]; [cbn in Hlt; lia |].
    exists d. reflexivity.
  - exists d. reflexivity.
Qed.

Lemma deque_append_len {A : Type} (maxlen : Z) (d : list A) (x : A) :
  len (deque_append maxlen d x) <= len d + 1.
Proof.
  unfold deque_append.
  destruct (Z.ltb_spec maxlen (len (d ++ [x]))).
  - destruct d as [| y d]; cbn [app tl]; unfold len;
      rewrite ?length_app; cbn [length]; lia.
  - unfold len. rewrite length_app. cbn [length]. lia.
Qed.

Section CollectorFacts.

Variable V : Type.
Variable is_speech : V -> list byte -> Z -> result bool * V.
Variable sample_rate frame_duration_ms : Z.
Variable threshold : float.
Variable maxlen : Z.

Local Abbreviation loop :=
  (collect_loop V is_speech sample_rate frame_duration_ms threshold maxlen).
Local Abbreviation body := (collect_frame frame_duration_ms threshold maxlen).

(** Running the loop over [pre ++ post] is running it over [pre] and,
    unless that raised, going on over [post] with the index advanced. *)
Lemma collect_loop_app (pre post : list Frame) :
  forall i last st v,
    loop i last (pre ++ post) st v =
    match loop i last pre st v with
    | (s1, Raise e, v1) => (s1, Raise e, v1)
    | (s1, Ok (st1, last1), v1) =>
        let '(s2, r, v2) := loop (i + len pre) last1 post st1 v1 in
        (s1 ++ s2, r, v2)
    end.
Proof.
  induction pre as [| f pre IH]; intros i last st v.
  - cbn [app collect_loop]. replace (i + len []) with i by (cbn; lia).
    now destruct (collect_loop _ _ _ _ _ _ i last post st v) as [[s r] v'].
  - cbn [app collect_loop].
    destruct (is_speech v (bytes f) sample_rate) as [[speech | e] v1];
      [| reflexivity].
    destruct (collect_frame _ _ _ i f speech st) as [st1 out].
    rewrite IH.
    destruct (collect_loop _ _ _ _ _ _ (i + 1) (Some i) pre st1 v1)
      as [[s1 [[st2 last2] | e]] v2]; [| reflexivity].
    rewrite len_cons.
    replace (i + (1 + len pre)) with (i + 1 + len pre) by lia.
    destruct (collect_loop _ _ _ _ _ _ (i + 1 + len pre) last2 post st2 v2)
      as [[s2 r] v3].
    now rewrite app_assoc.
Qed.

(** One more frame after a run that did not raise. *)
Lemma collect_loop_snoc (pre : list Frame) (frame : Frame) :
  forall v segs st last v1 speech v2,
    loop 0 None pre init_state v = (segs, Ok (st, last), v1) ->
    is_speech v1 (bytes frame) sample_rate = (Ok speech, v2) ->
    loop 0 None (pre ++ [frame]) init_state v =
    (segs ++ snd (body (len pre) frame speech st),
     Ok (fst (body (len pre) frame speech st), Some (len pre)), v2).
Proof.
  intros v segs st last v1 speech v2 Hpre Hans.
  rewrite collect_loop_app, Hpre.
  cbn [collect_loop]. rewrite Hans. rewrite Z.add_0_l.
  destruct (collect_frame _ _ _ (len pre) frame speech st) as [st' out].
  cbn [fst snd]. now rewrite app_nil_r.
Qed.

(** At loop exit [frame_index] is bound to the index of the last frame,
    if there was a frame. *)
Lemma collect_loop_index (frames : list Frame) :
  forall i last st v segs st' last' v',
    loop i last frames st v = (segs, Ok (st', last'), v') ->
    last' = match frames with
            | [] => last
            | _ :: _ => Some (i + len frames - 1)
            end.
Proof.
  induction frames as [| f rest IH];
    intros i last st v segs st' last' v' H; cbn [collect_loop] in H.
  - congruence.
  - destruct (is_speech v (bytes f) sample_rate) as [[speech | e] v1];
      [| discriminate].
    destruct (collect_frame _ _ _ i f speech st) as [st1 out].
    destruct (collect_loop _ _ _ _ _ _ (i + 1) (Some i) rest st1 v1)
      as [[s1 r] v2] eqn:Hrest.
    injection H as _ -> _. apply IH in Hrest. subst last'.
    rewrite len_cons. destruct rest as [| g rest'].
    + f_equal. cbn. lia.
    + f_equal. rewrite len_cons. lia.
Qed.

End CollectorFacts.


Section Transitions.

Variable V : Type.
Variable is_speech : V -> list byte -> Z -> result bool * V.
Variable sample_rate frame_duration_ms : Z.
Variable threshold : float.
Variable maxlen : Z.

Local Abbreviation loop :=
  (collect_loop V is_speech sample_rate frame_duration_ms threshold maxlen).

(** C1: when the segmenter is TRIGGERED before the frame of index
    [frame_index], that frame is appended to [voiced_frames] and pushed
    into the ring buffer (the oldest entry leaving when the buffer is over
    its bound); if the number of entries of the buffer whose verdict is
    unvoiced is then greater than [threshold * maxlen], the loop yields
    exactly one more segment, whose bytes are the bytes of the frames of
    [voiced_frames] put end to end in order, from
    [frame_duration_ms * max(0, frame_index - len(voiced_frames))] to
    [frame_duration_ms * frame_index], and goes on NOT_TRIGGERED with the
    buffer and [voiced_frames] empty; otherwise it yields nothing and stays
    TRIGGERED. *)
Theorem triggered_frame (pre : list Frame) (frame : Frame) (v : V)
    (segs : list Segment) (st : state) (last : option Z) (v1 : V)
    (speech : bool) (v2 : V) :
  loop 0 None pre init_state v = (segs, Ok (st, last), v1) ->
  triggered st = true ->
  is_speech v1 (bytes frame) sample_rate = (Ok speech, v2) ->
  let frame_index := Z.of_nat (length pre) in
  let vf := voiced_frames st ++ [frame] in
  let pushed := ring_buffer st ++ [(frame, speech)] in
  let rb := if maxlen <? Z.of_nat (length pushed) then tl pushed else pushed in
  let unvoiced := Z.of_nat (length (filter (fun p => negb (snd p)) rb)) in
  loop 0 None (pre ++ [frame]) init_state v =
  if int_gt_float unvoiced (threshold * float_of_Z maxlen) then
    (segs ++ [(concat (map bytes vf),
               frame_duration_ms
               * Z.max 0 (frame_index - Z.of_nat (length vf)),
               frame_duration_ms * frame_index)],
     Ok (mkState [] false [], Some frame_index), v2)
  else
    (segs, Ok (mkState rb true vf, Some frame_index), v2).
Proof.
  intros Hpre Htrig Hans frame_index vf pushed rb unvoiced.
  rewrite (collect_loop_snoc _ _ _ _ _ _ _ _ _ _ _ _ _ _ _ Hpre Hans).
  unfold collect_frame. rewrite Htrig. cbn [negb].
  change (deque_append maxlen (ring_buffer st) (frame, speech)) with rb.
  change (exceeds threshold maxlen (num_unvoiced rb))
    with (int_gt_float unvoiced (threshold * float_of_Z maxlen)).
  change (len pre) with frame_index.
  change (join_bytes (voiced_frames st ++ [frame])) with (concat (map bytes vf)).
  change (len (voiced_frames st ++ [frame])) with (Z.of_nat (length vf)).
  destruct (int_gt_float unvoiced (threshold * float_of_Z maxlen));
    cbn [fst snd].
  - reflexivity.
  - now rewrite app_nil_r.
Qed.

(** C2: when the segmenter is NOT_TRIGGERED before a frame, the frame is
    pushed into the ring buffer first; if the number of entries of the
    buffer whose verdict is voiced is then greater than
    [threshold * maxlen], the frame of every [(frame, verdict)] entry of the
    buffer is appended to [voiced_frames], in buffer order, the buffer is
    emptied, the segmenter goes on TRIGGERED and nothing is yielded;
    otherwise only the buffer changes.  With a buffer of positive capacity
    the frame just pushed is the newest entry, so it is among the frames
    appended. *)
Theorem not_triggered_frame (pre : list Frame) (frame : Frame) (v : V)
    (segs : list Segment) (st : state) (last : option Z) (v1 : V)
    (speech : bool) (v2 : V) :
  loop 0 None pre init_state v = (segs, Ok (st, last), v1) ->
  triggered st = false ->
  is_speech v1 (bytes frame) sample_rate = (Ok speech, v2) ->
  let frame_index := Z.of_nat (length pre) in
  let pushed := ring_buffer st ++ [(frame, speech)] in
  let rb := if maxlen <? Z.of_nat (length pushed) then tl pushed else pushed in
  let voiced := Z.of_nat (length (filter (fun p => snd p) rb)) in
  loop 0 None (pre ++ [frame]) init_state v =
  (if int_gt_float voiced (threshold * float_of_Z maxlen) then
     (segs, Ok (mkState [] true (voiced_frames st ++ map fst rb),
                Some frame_index), v2)
   else
     (segs, Ok (mkState rb false (voiced_frames st), Some frame_index), v2))
  /\ (0 < maxlen -> exists older, rb = older ++ [(frame, speech)]).
Proof.
  intros Hpre Htrig Hans frame_index pushed rb voiced. split.
  - rewrite (collect_loop_snoc _ _ _ _ _ _ _ _ _ _ _ _ _ _ _ Hpre Hans).
    unfold collect_frame. rewrite Htrig. cbn [negb].
    change (deque_append maxlen (ring_buffer st) (frame, speech)) with rb.
    change (exceeds threshold maxlen (num_voiced rb))
      with (int_gt_float voiced (threshold * float_of_Z maxlen)).
    change (len pre) with frame_index.
    destruct (int_gt_float voiced (threshold * float_of_Z maxlen));
      cbn [fst snd]; now rewrite app_nil_r.
  - intros Hm.
    apply (deque_append_last maxlen (ring_buffer st) (frame, speech) Hm).
Qed.

End Transitions.

(** The 21-frame run with 30 ms frames and a two-entry window, where a
    count must be above 0.5 * 2 = 1: the segmenter is TRIGGERED before frame
    20 with frames 6-19 collected; frame 19 is the first unvoiced entry and
    changes nothing, frame 20 is the second and detriggers.  The second
    segment holds the bytes of frames 6-20 and runs from
    30 * max(0, 20 - 15) = 150 to 30 * 20 = 600. *)
Lemma triggered_frame_witness :
  exists r,
    collect_loop _ scripted 16000 30 0.5 2 0 None
      (sample_frames 20 ++ [sample_frame 20]) init_state script_21 = r /\
    fst (fst r)
    = [([x00; x01; x02; x03; x04; x05], 0, 150);
       ([x06; x07; x08; x09; x0a; x0b; x0c; x0d; x0e; x0f; x10; x11; x12;
         x13; x14], 150, 600)] /\
    snd (fst r) = Ok (mkState [] false [], Some 20).
Proof.
  eexists. split.
  - refine (triggered_frame _ scripted 16000 30 0.5 2 (sample_frames 20)
              (sample_frame 20) script_21 _ _ _ _ false _ _ _ _).
    + vm_compute; reflexivity.
    + reflexivity.
    + reflexivity.
  - vm_compute. split; reflexivity.
Defined.

(** In the same run the segmenter is NOT_TRIGGERED before frame 7: frame
    6 is the first voiced entry since the buffer was emptied and changes
    only the buffer, frame 7 is the second and triggers.  Frames 6 and 7 are
    appended to [voiced_frames], the buffer is emptied and nothing is
    yielded. *)
Lemma not_triggered_frame_witness :
  exists r,
    collect_loop _ scripted 16000 30 0.5 2 0 None
      (sample_frames 7 ++ [sample_frame 7]) init_state script_21 = r /\
    fst (fst r) = [([x00; x01; x02; x03; x04; x05], 0, 150)] /\
    snd (fst r)
    = Ok (mkState [] true [sample_frame 6; sample_frame 7], Some 7).
Proof.
  eexists. split.
  - refine (proj1 (not_triggered_frame _ scripted 16000 30 0.5 2
                     (sample_frames 7) (sample_frame 7) script_21
                     _ _ _ _ true _ _ _ _)).
    + vm_compute; reflexivity.
    + reflexivity.
    + reflexivity.
  - vm_compute. split; reflexivity.
Defined.

(** What is appended on the trigger is the frame of each entry, not the
    entry: no reading of the elements of [voiced_frames] gives back the
    [(frame, verdict)] pairs of the buffer.  With a window of 10 and
    threshold 0.5, the verdicts F T T T T T T and T F T T T T T both trigger
    at frame 6 and leave the same seven frames in [voiced_frames], while
    frame 0 was unvoiced in one buffer and voiced in the other. *)
Lemma pairs_not_appended :
  ~ (exists decode : Frame -> Frame * bool,
       forall (pre : list Frame) (frame : Frame) (script : list (result bool))
              segs st last v1 speech v2 segs' st' last' v',
         collect_loop _ scripted 16000 30 0.5 10 0 None pre init_state script
         = (segs, Ok (st, last), v1) ->
         triggered st = false ->
         scripted v1 (bytes frame) 16000 = (Ok speech, v2) ->
         collect_loop _ scripted 16000 30 0.5 10 0 None (pre ++ [frame])
           init_state script = (segs', Ok (st', last'), v') ->
         triggered st' = true ->
         map decode (voiced_frames st')
         = deque_append 10 (ring_buffer st) (frame, speech)).
Proof.
  intros [decode H].
  pose proof (H (sample_frames 6) (sample_frame 6)
                (map Ok [false; true; true; true; true; true; true])
                _ _ _ _ true _ _ _ _ _
                ltac:(vm_compute; reflexivity) eq_refl eq_refl
                ltac:(vm_compute; reflexivity) eq_refl) as HA.
  pose proof (H (sample_frames 6) (sample_frame 6)
                (map Ok [true; false; true; true; true; true; true])
                _ _ _ _ true _ _ _ _ _
                ltac:(vm_compute; reflexivity) eq_refl eq_refl
                ltac:(vm_compute; reflexivity) eq_refl) as HB.
  cbn [voiced_frames ring_buffer] in HA, HB.
  unfold deque_append in HA, HB. cbn in HA, HB.
  injection HA as HA _. injection HB as HB _.
  rewrite HA in HB. discriminate HB.
Qed.

Section EndOfStream.

Variable V : Type.
Variable is_speech : V -> list byte -> Z -> result bool * V.
Variable sample_rate frame_duration_ms : Z.
Variable threshold : float.
Variable maxlen : Z.

Local Abbreviation loop :=
  (collect_loop V is_speech sample_rate frame_duration_ms threshold maxlen).
Local Abbreviation body := (collect_frame frame_duration_ms threshold maxlen).
Local Abbreviation after :=
  (state_after is_speech sample_rate frame_duration_ms threshold maxlen).

(** A run over [pre ++ [frame]] that did not raise is a run over [pre]
    that did not raise, an answer of the classifier and one pass through
    the loop body. *)
Lemma collect_loop_snoc_inv (pre : list Frame) (frame : Frame) (v : V)
    (segs : list Segment) (st : state) (last : option Z) (v' : V) :
  loop 0 None (pre ++ [frame]) init_state v = (segs, Ok (st, last), v') ->
  exists s1 st1 l1 v1 speech,
    loop 0 None pre init_state v = (s1, Ok (st1, l1), v1) /\
    is_speech v1 (bytes frame) sample_rate = (Ok speech, v') /\
    segs = s1 ++ snd (body (len pre) frame speech st1) /\
    st = fst (body (len pre) frame speech st1).
Proof.
  intros H. rewrite collect_loop_app in H.
  destruct (loop 0 None pre init_state v) as [[s1 [[st1 l1] | e]] v1];
    [| discriminate].
  cbn [collect_loop] in H.
  destruct (is_speech v1 (bytes frame) sample_rate) as [[speech | e] v2]
    eqn:Hans; [| discriminate].
  destruct (body (0 + len pre) frame speech st1) as [st2 out] eqn:Hbody.
  rewrite Z.add_0_l in Hbody.
  injection H as <- <- _ <-.
  exists s1, st1, l1, v1, speech. rewrite Hbody, app_nil_r. auto.
Qed.

(** The loop body yields something only on leaving TRIGGERED. *)
Lemma collect_frame_yields (i : Z) (frame : Frame) (speech : bool)
    (st : state) :
  snd (body i frame speech st) <> [] ->
  triggered st = true /\ triggered (fst (body i frame speech st)) = false.
Proof.
  unfold collect_frame. destruct (triggered st); cbn [negb].
  - destruct (exceeds _ _ (num_unvoiced _)); cbn [fst snd triggered]; intuition.
  - destruct (exceeds _ _ (num_voiced _)); cbn [fst snd]; intuition.
Qed.

(** With a ring buffer of positive capacity, a TRIGGERED segmenter has
    collected at least one frame. *)
Lemma collect_frame_voiced (i : Z) (frame : Frame) (speech : bool)
    (st : state) :
  0 < maxlen ->
  triggered (fst (body i frame speech st)) = true ->
  voiced_frames (fst (body i frame speech st)) <> [].
Proof.
  intros Hm. unfold collect_frame. destruct (triggered st); cbn [negb].
  - destruct (exceeds _ _ (num_unvoiced _));
      cbn [fst triggered voiced_frames]; [discriminate |].
    intros _ Hnil. now apply app_eq_nil in Hnil as [_ Hnil].
  - destruct (exceeds _ _ (num_voiced _));
      cbn [fst triggered voiced_frames]; [| discriminate].
    intros _ Hnil. apply app_eq_nil in Hnil as [_ Hnil].
    destruct (deque_append_last maxlen (ring_buffer st) (frame, speech) Hm)
      as [older Hrb].
    rewrite Hrb, map_app in Hnil. now apply app_eq_nil in Hnil as [_ Hnil].
Qed.

Lemma triggered_voiced (frames : list Frame) (v : V) (segs : list Segment)
    (st : state) (last : option Z) (v' : V) :
  0 < maxlen ->
  loop 0 None frames init_state v = (segs, Ok (st, last), v') ->
  triggered st = true -> voiced_frames st <> [].
Proof.
  intros Hm. destruct frames as [| f fs] using rev_ind.
  - cbn. intros [= _ <- _ _]. discriminate.
  - intros H. apply collect_loop_snoc_inv in H
      as (s1 & st1 & l1 & v1 & speech & _ & _ & _ & ->).
    now apply collect_frame_voiced.
Qed.

Lemma after_all (frames : list Frame) (v : V) (segs : list Segment)
    (st : state) (last : option Z) (v' : V) :
  loop 0 None frames init_state v = (segs, Ok (st, last), v') ->
  after frames v (length frames) st.
Proof.
  intros H. exists segs, last, v'. now rewrite firstn_all.
Qed.

Lemma after_snoc (pre : list Frame) (frame : Frame) (v : V) (k : nat)
    (st : state) :
  (k <= length pre)%nat ->
  after (pre ++ [frame]) v k st <-> after pre v k st.
Proof.
  intros Hk. unfold state_after. rewrite firstn_app.
  replace (k - length pre)%nat with 0%nat by lia.
  cbn [firstn]. now rewrite app_nil_r.
Qed.

(** A run that never leaves TRIGGERED yields nothing inside the loop, and
    once it has entered TRIGGERED it is still there at the end. *)
Lemma never_detriggered (frames : list Frame) (v : V) :
  forall segs st last v',
    loop 0 None frames init_state v = (segs, Ok (st, last), v') ->
    (forall k st_k st_k', (k < length frames)%nat ->
       after frames v k st_k -> triggered st_k = true ->
       after frames v (S k) st_k' -> triggered st_k' = true) ->
    segs = [] /\
    ((exists k st_k, after frames v k st_k /\ triggered st_k = true) ->
     triggered st = true).
Proof.
  induction frames as [| f pre IH] using rev_ind;
    intros segs st last v' Hrun Hstay.
  - cbn in Hrun. injection Hrun as <- <- _ _. split; [reflexivity |].
    intros (k & st_k & (s & l & w & Hk) & Htrig).
    rewrite firstn_nil in Hk. cbn in Hk. congruence.
  - pose proof (after_all _ _ _ _ _ _ Hrun) as Hend.
    apply collect_loop_snoc_inv in Hrun
      as (s1 & st1 & l1 & v1 & speech & Hpre & Hans & -> & ->).
    pose proof (after_all _ _ _ _ _ _ Hpre) as Hmid.
    rewrite length_app in Hend, Hstay. cbn [length] in Hend, Hstay.
    replace (length pre + 1)%nat with (S (length pre)) in Hend, Hstay by lia.
    destruct (IH _ _ _ _ Hpre) as [-> Henter].
    { intros k st_k st_k' Hk Ha Ht Hb.
      apply (Hstay k st_k st_k'); try lia; try assumption;
        apply after_snoc; (lia || assumption). }
    assert (Hstep : triggered st1 = true ->
                    triggered (fst (body (len pre) f speech st1)) = true).
    { intros Ht. apply (Hstay (length pre) st1); try lia; try assumption.
      apply after_snoc; [lia | assumption]. }
    split.
    + cbn [app].
      destruct (snd (body (len pre) f speech st1)) as [| s out] eqn:Hout;
        [reflexivity |].
      destruct (collect_frame_yields (len pre) f speech st1) as [Ht Hf];
        [rewrite Hout; discriminate |].
      rewrite (Hstep Ht) in Hf. discriminate.
    + intros (k & st_k & Hk & Htrig).
      destruct (Nat.le_gt_cases k (length pre)) as [Hle | Hgt].
      * apply Hstep, Henter. exists k, st_k. split; [| assumption].
        now apply after_snoc in Hk.
      * destruct Hk as (s & l & w & Hk), Hend as (s' & l' & w' & Hend).
        rewrite firstn_all2 in Hk by (rewrite length_app; cbn; lia).
        rewrite firstn_all2 in Hend by (rewrite length_app; cbn; lia).
        congruence.
Qed.

Variable padding_duration_ms : Z.
Hypothesis ring_buffer_made :
  new_ring_buffer padding_duration_ms frame_duration_ms = Ok maxlen.

Local Abbreviation run :=
  (vad_collector sample_rate frame_duration_ms padding_duration_ms threshold
     is_speech).

Lemma vad_collector_collect (frames : list Frame) (v : V) :
  run v frames
  = collect V is_speech sample_rate frame_duration_ms threshold maxlen
      frames v.
Proof. unfold vad_collector. now rewrite ring_buffer_made. Qed.

(** C3: when the loop ends with [voiced_frames] non-empty, one last
    segment is yielded after those of the loop: its bytes are the bytes of
    the frames of [voiced_frames] put end to end in order, and it runs from
    [frame_duration_ms * (last_index - len(voiced_frames))] to
    [frame_duration_ms * (last_index + 1)], with [last_index] the index of
    the last frame.  A run that enters TRIGGERED and never leaves it yields
    that segment and no other (the ring buffer having positive capacity). *)
Theorem end_of_stream_flush (frames : list Frame) (v : V)
    (segs : list Segment) (st : state) (last : option Z) (v' : V) :
  loop 0 None frames init_state v = (segs, Ok (st, last), v') ->
  let last_index := Z.of_nat (length frames) - 1 in
  let final := (concat (map bytes (voiced_frames st)),
                frame_duration_ms
                * (last_index - Z.of_nat (length (voiced_frames st))),
                frame_duration_ms * (last_index + 1)) in
  (voiced_frames st <> [] ->
   run v frames = mkRun (segs ++ [final]) (Ok tt) v') /\
  (0 < maxlen ->
   (exists k st_k, after frames v k st_k /\ triggered st_k = true) ->
   (forall k st_k st_k', (k < length frames)%nat ->
      after frames v k st_k -> triggered st_k = true ->
      after frames v (S k) st_k' -> triggered st_k' = true) ->
   voiced_frames st <> [] /\
   run v frames = mkRun [final] (Ok tt) v').
Proof.
  intros Hrun last_index final.
  assert (Hflush : voiced_frames st <> [] ->
            run v frames = mkRun (segs ++ [final]) (Ok tt) v').
  { intros Hvf. rewrite vad_collector_collect.
    unfold collect. rewrite Hrun. unfold flush.
    subst final last_index.
    pose proof (collect_loop_index _ _ _ _ _ _ _ _ _ _ _ _ _ _ _ Hrun) as Hlast.
    destruct frames as [| f fs].
    - cbn in Hrun. injection Hrun as _ <- _ _. now destruct Hvf.
    - subst last. rewrite Z.add_0_l.
      destruct (voiced_frames st); [congruence | reflexivity]. }
  split; [exact Hflush |].
  intros Hm Henter Hstay.
  destruct (never_detriggered frames v _ _ _ _ Hrun Hstay) as [-> Htrig].
  assert (Hvf : voiced_frames st <> [])
    by (eapply triggered_voiced; eauto).
  split; [exact Hvf |]. now apply Hflush.
Qed.

End EndOfStream.


(** Eight voiced frames with the pipeline's setting (30 ms frames, 300 ms
    of padding, threshold 0.5): the run enters TRIGGERED at frame 5, never
    leaves it, and yields the one final segment, which holds the bytes of
    the eight frames in order. *)
Lemma end_of_stream_flush_witness :
  vad_collector 16000 30 300 0.5 always_voiced tt (sample_frames 8)
  = mkRun [([x00; x01; x02; x03; x04; x05; x06; x07],
            30 * (7 - 8), 30 * (7 + 1))]
          (Ok tt) tt.
Proof.
  refine (proj2 (proj2 (end_of_stream_flush unit always_voiced 16000 30 0.5 10
                          300 _ (sample_frames 8) tt []
                          (mkState [(sample_frame 6, true);
                                    (sample_frame 7, true)]
                                   true (sample_frames 8)) (Some 7) tt _)
                   _ _ _)).
  - vm_compute; reflexivity.
  - vm_compute; reflexivity.
  - lia.
  - exists 6%nat, (mkState [] true (sample_frames 6)). split; [| reflexivity].
    exists [], (Some 5), tt. vm_compute; reflexivity.
  - intros k st_k st_k' Hk (s & l & w & Ha) Ht (s' & l' & w' & Hb).
    do 6 (destruct k as [| k];
          [vm_compute in Ha; inversion Ha; subst st_k; discriminate Ht |]).
    do 2 (destruct k as [| k];
          [vm_compute in Hb; inversion Hb; reflexivity |]).
    cbn in Hk. lia.
Defined.

(** ** The ring buffer is created for ordinary durations

    [int(padding_duration_ms / frame_duration_ms)] goes through a float.
    The lemmas below follow the rounding of [binary_normalize] on a
    non-negative quotient below [2 ^ 62]: the result is a valid binary64
    number, zero or finite with a mantissa below [2 ^ 53] and an exponent
    of at most 10, so the division does not overflow and the truncated
    value is accepted by [deque].  The link between the primitive floats
    and [spec_float] is the standard library's ([Prim2SF_SF2Prim],
    [abs_spec], [eqb_spec]). *)

Lemma digits2_pos_bounds (p : positive) :
  2 ^ (Zpos (digits2_pos p) - 1) <= Zpos p < 2 ^ Zpos (digits2_pos p).
Proof.
  induction p as [p IH | p IH |]; cbn [digits2_pos].
  - rewrite Pos2Z.inj_succ. change (Zpos p~1) with (2 * Zpos p + 1).
    replace (Z.succ (Zpos (digits2_pos p)) - 1)
      with (Z.succ (Zpos (digits2_pos p) - 1)) by lia.
    rewrite !Z.pow_succ_r by lia. lia.
  - rewrite Pos2Z.inj_succ. change (Zpos p~0) with (2 * Zpos p).
    replace (Z.succ (Zpos (digits2_pos p)) - 1)
      with (Z.succ (Zpos (digits2_pos p) - 1)) by lia.
    rewrite !Z.pow_succ_r by lia. lia.
  - cbn. lia.
Qed.

Lemma pow2_lt_exponent (a b x : Z) :
  0 <= a -> 2 ^ a <= x -> x < 2 ^ b -> a < b.
Proof.
  intros Ha H1 H2.
  destruct (Z.lt_ge_cases a b) as [| Hba]; [assumption |].
  destruct (Z.lt_ge_cases b 0) as [Hb | Hb].
  - rewrite (Z.pow_neg_r 2 b Hb) in H2.
    pose proof (Z.pow_nonneg 2 a ltac:(lia)). lia.
  - pose proof (Z.pow_le_mono_r 2 b a ltac:(lia) Hba). lia.
Qed.

Lemma shr_1_m (mrs : shr_record) :
  0 <= shr_m mrs -> shr_m (shr_1 mrs) = shr_m mrs / 2.
Proof.
  destruct mrs as [m r s]. cbn [shr_m]. intros Hm.
  rewrite <- Z.div2_div.
  destruct m as [| [p | p |] |]; try reflexivity. lia.
Qed.

Lemma iter_pos_shr_1_m (p : positive) :
  forall mrs, 0 <= shr_m mrs ->
    shr_m (iter_pos shr_1 p mrs) = shr_m mrs / 2 ^ Zpos p.
Proof.
  assert (Hpos : forall k, 0 < 2 ^ Zpos k) by (intros; apply Z.pow_pos_nonneg; lia).
  induction p as [p IH | p IH |]; intros mrs Hm; cbn [iter_pos].
  - assert (H1 : 0 <= shr_m (shr_1 mrs))
      by (rewrite shr_1_m by assumption; apply Z.div_pos; lia).
    assert (H2 : 0 <= shr_m (iter_pos shr_1 p (shr_1 mrs)))
      by (rewrite IH by assumption; apply Z.div_pos; [assumption | apply Hpos]).
    rewrite IH, IH, shr_1_m by assumption.
    pose proof (Hpos p).
    rewrite !Z.div_div by lia.
    f_equal. replace (Zpos p~1) with (1 + (Zpos p + Zpos p)) by lia.
    rewrite !Z.pow_add_r by lia. reflexivity.
  - assert (H2 : 0 <= shr_m (iter_pos shr_1 p mrs))
      by (rewrite IH by assumption; apply Z.div_pos; [assumption | apply Hpos]).
    rewrite IH, IH by assumption.
    pose proof (Hpos p).
    rewrite !Z.div_div by lia.
    f_equal. replace (Zpos p~0) with (Zpos p + Zpos p) by lia.
    rewrite !Z.pow_add_r by lia. reflexivity.
  - apply shr_1_m, Hm.
Qed.

(** [shr] drops the [n] low bits of a non-negative mantissa and adds [n]
    to the exponent; it does nothing for [n <= 0]. *)
Lemma shr_m_e (mrs : shr_record) (e n : Z) :
  0 <= shr_m mrs ->
  shr_m (fst (shr mrs e n)) = shr_m mrs / 2 ^ Z.max 0 n /\
  snd (shr mrs e n) = e + Z.max 0 n.
Proof.
  intros Hm. destruct n as [| p | p]; cbn [shr fst snd].
  - rewrite Z.max_l by lia. rewrite Z.div_1_r. lia.
  - rewrite Z.max_r by lia. split; [apply iter_pos_shr_1_m, Hm | reflexivity].
  - rewrite Z.max_l by lia. rewrite Z.div_1_r. lia.
Qed.

Lemma round_nearest_even_step (m : Z) (l : location) :
  round_nearest_even m l = m \/ round_nearest_even m l = m + 1.
Proof.
  destruct l as [| []]; cbn; auto. destruct (Z.even m); auto.
Qed.

Lemma Zdigits2_bounds (m : Z) :
  0 < m -> 0 < Zdigits2 m /\ 2 ^ (Zdigits2 m - 1) <= m < 2 ^ Zdigits2 m.
Proof.
  destruct m as [| p | p]; try lia. intros _. cbn [Zdigits2].
  split; [lia | apply digits2_pos_bounds].
Qed.

Lemma binary_round_wide (mx : positive) (ex : Z) :
  53 <= Zpos (digits2_pos mx) ->
  Zpos (digits2_pos mx) + ex <= 62 ->
  let x := binary_round prec emax false mx ex in
  valid_binary x = true /\
  (x = S754_zero false \/
   exists m e, x = S754_finite false m e /\ Zpos m < 2 ^ 53 /\ e <= 10).
Proof.
  intros Hd Hde.
  pose proof (digits2_pos_bounds mx) as Hmx.
  unfold binary_round, shl_align.
  set (d := Zpos (digits2_pos mx)) in *.
  set (e1 := fexp prec emax (d + ex)).
  assert (He1 : e1 = Z.max (d + ex - 53) (-1074)) by reflexivity.
  clearbody e1.
  assert (Hshl : match e1 - ex with
                 | Zneg k => (Pos.iter xO mx k, e1)
                 | _ => (mx, ex)
                 end = (mx, ex))
    by (destruct (e1 - ex) eqn:Hsub; try reflexivity; lia).
  rewrite Hshl. clear Hshl.
  unfold binary_round_aux, shr_fexp. cbn [Zdigits2]. fold d.
  change (fexp prec emax (d + ex)) with (Z.max (d + ex - 53) (-1074)).
  rewrite <- He1. cbn [shr_record_of_loc].
  destruct (shr_m_e {| shr_m := Zpos mx; shr_r := false; shr_s := false |}
              ex (e1 - ex)) as [Hm1 He']; [cbn; lia |].
  destruct (shr _ ex (e1 - ex)) as [mrs' e']. cbn [fst snd shr_m] in Hm1, He'.
  rewrite Z.max_r in Hm1, He' by lia.
  replace (ex + (e1 - ex)) with e1 in He' by lia. subst e'.
  set (m1 := shr_m mrs') in *.
  (* the first shift leaves at most 53 bits *)
  assert (Hp : 0 < 2 ^ (e1 - ex)) by (apply Z.pow_pos_nonneg; lia).
  assert (Hm1lo : 0 <= m1) by (rewrite Hm1; apply Z.div_pos; lia).
  assert (Hm1hi : m1 < 2 ^ 53).
  { rewrite Hm1. apply Z.div_lt_upper_bound; [assumption |].
    rewrite <- Z.pow_add_r by lia.
    apply Z.lt_le_trans with (1 := proj2 Hmx).
    apply Z.pow_le_mono_r; lia. }
  assert (Hnorm : -1074 < d + ex - 53 -> 2 ^ 52 <= m1).
  { intros Hn. rewrite Hm1. apply Z.div_le_lower_bound; [assumption |].
    replace (e1 - ex) with (d - 53) by lia.
    rewrite <- Z.pow_add_r by lia.
    replace (d - 53 + 52) with (d - 1) by lia. apply Hmx. }
  set (m2 := round_nearest_even m1 (loc_of_shr_record mrs')).
  assert (Hm2 : m2 = m1 \/ m2 = m1 + 1) by apply round_nearest_even_step.
  clearbody m2.
  set (n2 := fexp prec emax (Zdigits2 m2 + e1) - e1).
  assert (Hn2 : n2 = Z.max (Zdigits2 m2 + e1 - 53) (-1074) - e1) by reflexivity.
  clearbody n2.
  destruct (shr_m_e {| shr_m := m2; shr_r := false; shr_s := false |} e1 n2)
    as [Hm3 He'']; [cbn; lia |].
  destruct (shr _ e1 n2) as [mrs'' e'']. cbn [fst snd shr_m] in Hm3, He''.
  change (emax - prec) with 971.
  destruct (Z.eq_dec m2 0) as [Hz | Hnz].
  - (* rounded to zero *)
    rewrite Hm3, Hz, Z.div_0_l by (apply Z.pow_nonzero; lia).
    split; [reflexivity | left; reflexivity].
  - destruct (Zdigits2_bounds m2 ltac:(lia)) as [Hd2 Hb2].
    destruct (Z.eq_dec m2 (2 ^ 53)) as [Htop | Hlow].
    + (* the mantissa was rounded up to 2 ^ 53 *)
      assert (Hd54 : Zdigits2 m2 = 54).
      { rewrite Htop. reflexivity. }
      rewrite Hd54 in Hn2.
      replace n2 with 1 in * by lia.
      rewrite Z.max_r in Hm3, He'' by lia.
      rewrite Htop in Hm3. change (2 ^ 53 / 2 ^ 1) with (Zpos (2 ^ 52)) in Hm3.
      rewrite Hm3.
      assert (Hle : (e'' <=? 971) = true) by (apply Z.leb_le; lia).
      rewrite Hle.
      split.
      * cbn [valid_binary]. unfold bounded, canonical_mantissa.
        apply andb_true_intro.
        split; [apply Z.eqb_eq | apply Z.leb_le; change (emax - prec) with 971; lia].
        change (fexp prec emax (Zpos (digits2_pos (2 ^ 52)) + e''))
          with (Z.max (53 + e'' - 53) (-1074)). lia.
      * right. exists (2 ^ 52)%positive, e''.
        split; [reflexivity | split; [reflexivity | lia]].
    + (* at most 53 bits: no second shift *)
      assert (Hd53 : Zdigits2 m2 <= 53).
      { assert (Zdigits2 m2 - 1 < 53); [| lia].
        apply (pow2_lt_exponent _ _ m2); [lia | apply Hb2 | lia]. }
      assert (Hcanon : Z.max (Zdigits2 m2 + e1 - 53) (-1074) = e1).
      { destruct (Z.le_gt_cases (d + ex - 53) (-1074)) as [Hsub | Hn]; [lia |].
        assert (52 < Zdigits2 m2); [| lia].
        apply (pow2_lt_exponent _ _ m2); [lia | | apply Hb2].
        specialize (Hnorm Hn). lia. }
      replace n2 with 0 in * by lia.
      rewrite Z.max_l in Hm3, He'' by lia.
      rewrite Z.div_1_r in Hm3. rewrite Z.add_0_r in He''. subst e''.
      rewrite Hm3.
      destruct m2 as [| p2 | p2]; try lia.
      assert (Hle : (e1 <=? 971) = true) by (apply Z.leb_le; lia).
      rewrite Hle.
      split.
      * cbn [valid_binary]. unfold bounded, canonical_mantissa.
        apply andb_true_intro.
        split; [apply Z.eqb_eq | apply Z.leb_le; change (emax - prec) with 971; lia].
        cbn [Zdigits2] in Hcanon. exact Hcanon.
      * right. exists p2, e1.
        split; [reflexivity | split; lia].
Qed.

Lemma small_float_to_int (x : spec_float) :
  valid_binary x = true ->
  (x = S754_zero false \/
   exists m e, x = S754_finite false m e /\ Zpos m < 2 ^ 53 /\ e <= 10) ->
  is_infinity (SF2Prim x) = false /\
  exists k, int_of_float (SF2Prim x) = Ok k /\ 0 <= k < 2 ^ 63.
Proof.
  intros Hvalid Hx.
  unfold is_infinity, int_of_float.
  rewrite eqb_spec, abs_spec, (Prim2SF_SF2Prim x Hvalid).
  change (Prim2SF infinity) with (S754_infinity false).
  destruct Hx as [-> | (m & e & -> & Hm & He)].
  - split; [reflexivity |]. exists 0. split; [reflexivity | lia].
  - split; [reflexivity |].
    destruct e as [| p | p].
    + exists (Zpos m). split; [reflexivity | lia].
    + exists (Zpos m * 2 ^ Zpos p). split; [reflexivity |].
      assert (0 < 2 ^ Zpos p) by (apply Z.pow_pos_nonneg; lia).
      assert (2 ^ Zpos p <= 2 ^ 10) by (apply Z.pow_le_mono_r; lia).
      change (2 ^ 10) with 1024 in *. change (2 ^ 53) with 9007199254740992 in *.
      change (2 ^ 63) with 9223372036854775808. nia.
    + exists (Zpos m / 2 ^ Zpos p). split; [reflexivity |].
      assert (0 < 2 ^ Zpos p) by (apply Z.pow_pos_nonneg; lia).
      split; [apply Z.div_pos; lia |].
      apply Z.le_lt_trans with (Zpos m); [| lia].
      apply Z.div_le_upper_bound; [lia | nia].
Qed.

Lemma int_truediv_positive (a b : Z) :
  0 <= a < 2 ^ 62 -> 0 < b ->
  exists f, int_truediv a b = Ok f /\
    exists k, int_of_float f = Ok k /\ 0 <= k < 2 ^ 63.
Proof.
  intros Ha Hb. unfold int_truediv.
  assert (Hb0 : (b =? 0) = false) by (apply Z.eqb_neq; lia).
  assert (Hbn : (b <? 0) = false) by (apply Z.ltb_ge; lia).
  assert (Hsgn : (Z.sgn a * Z.sgn b <? 0) = false)
    by (apply Z.ltb_ge; rewrite (Z.sgn_pos b) by lia; lia).
  rewrite Hb0, Hbn, Hsgn, (Z.abs_eq a), (Z.abs_eq b) by lia.
  set (s := 64 + Z.log2 b + 1).
  set (m := 2 * (a * 2 ^ s / b) + (if a * 2 ^ s mod b =? 0 then 0 else 1)).
  cut (is_infinity (SF2Prim (binary_normalize prec emax m (- (s + 1)) false))
       = false /\
       exists k, int_of_float
                   (SF2Prim (binary_normalize prec emax m (- (s + 1)) false))
                 = Ok k /\ 0 <= k < 2 ^ 63).
  { intros [-> Hk]. eauto. }
  pose proof (Z.log2_nonneg b) as Hlog.
  destruct (Z.log2_spec b Hb) as [_ Hb2].
  assert (Hs : 2 ^ s = 2 ^ 64 * 2 ^ Z.succ (Z.log2 b)).
  { unfold s. rewrite <- Z.pow_add_r by lia. f_equal. lia. }
  assert (HP : 0 < 2 ^ s) by (apply Z.pow_pos_nonneg; lia).
  destruct (Z.eq_dec a 0) as [-> | Hnz].
  - assert (Hm : m = 0) by (unfold m; rewrite Z.mul_0_l, Z.div_0_l, Z.mod_0_l by lia; reflexivity).
    rewrite Hm. apply small_float_to_int; [reflexivity | left; reflexivity].
  - assert (Hq1 : 2 ^ 64 <= a * 2 ^ s / b)
      by (apply Z.div_le_lower_bound; [lia | rewrite Hs; nia]).
    assert (Hq2 : a * 2 ^ s / b <= a * 2 ^ s)
      by (apply Z.div_le_upper_bound; [lia | nia]).
    assert (Hst : 0 <= (if a * 2 ^ s mod b =? 0 then 0 else 1) <= 1)
      by (destruct (a * 2 ^ s mod b =? 0); lia).
    assert (Hm1 : 2 ^ 65 <= m) by (unfold m; change (2 ^ 65) with (2 * 2 ^ 64); lia).
    assert (Hm2 : m < 2 ^ (63 + s)).
    { rewrite Z.pow_add_r by lia. unfold m.
      change (2 ^ 63) with (2 * 2 ^ 62).
      assert (a * 2 ^ s <= (2 ^ 62 - 1) * 2 ^ s) by nia. lia. }
    clearbody m. destruct m as [| mx | mx]; try (change (2 ^ 65) with 36893488147419103232 in Hm1; lia).
    cbn [binary_normalize].
    pose proof (digits2_pos_bounds mx) as Hd.
    assert (65 < Zpos (digits2_pos mx))
      by (apply (pow2_lt_exponent _ _ (Zpos mx)); [lia | assumption | apply Hd]).
    assert (Zpos (digits2_pos mx) - 1 < 63 + s)
      by (apply (pow2_lt_exponent _ _ (Zpos mx)); [lia | apply Hd | assumption]).
    destruct (binary_round_wide mx (- (s + 1))) as [Hv Hx]; [lia | lia |].
    apply small_float_to_int; assumption.
Qed.

Lemma new_ring_buffer_made (padding_duration_ms frame_duration_ms : Z) :
  0 <= padding_duration_ms < 2 ^ 62 -> 0 < frame_duration_ms ->
  exists maxlen, new_ring_buffer padding_duration_ms frame_duration_ms = Ok maxlen.
Proof.
  intros Hp Hf.
  destruct (int_truediv_positive _ _ Hp Hf) as (f & Hdiv & k & Hint & Hk).
  exists k. unfold new_ring_buffer, num_padding_frames.
  rewrite Hdiv. cbn [bind]. rewrite Hint. cbn [bind]. unfold deque_new.
  replace (k <? 0) with false by (symmetry; apply Z.ltb_ge; lia).
  replace (2 ^ 63 <=? k) with false by (symmetry; apply Z.leb_gt; lia).
  reflexivity.
Qed.

Section WholeRun.

Variable V : Type.
Variable is_speech : V -> list byte -> Z -> result bool * V.
Variable sample_rate frame_duration_ms padding_duration_ms : Z.
Variable threshold : float.

Local Abbreviation run :=
  (vad_collector sample_rate frame_duration_ms padding_duration_ms threshold).

(** C6: on the empty frame sequence [vad_collector] yields no segment and
    ends without an exception, the classifier untouched, whenever
    [frame_duration_ms] is positive and [padding_duration_ms] is
    non-negative and below [2 ^ 62]; the sample rate, the threshold and
    the classifier are arbitrary. *)
Theorem empty_input (v : V) :
  0 < frame_duration_ms ->
  0 <= padding_duration_ms < 2 ^ 62 ->
  vad_collector sample_rate frame_duration_ms padding_duration_ms threshold
    is_speech v []
  = mkRun [] (Ok tt) v.
Proof.
  intros Hf Hp.
  destruct (new_ring_buffer_made _ _ Hp Hf) as [maxlen Hbuf].
  unfold vad_collector. rewrite Hbuf. reflexivity.
Qed.

(** Whatever the parameters, nothing is yielded on the empty sequence and
    the classifier is not called. *)
Lemma empty_input_segments (v : V) :
  segments (run is_speech v []) = [] /\ vad_after (run is_speech v []) = v.
Proof.
  unfold vad_collector.
  destruct (new_ring_buffer padding_duration_ms frame_duration_ms);
    split; reflexivity.
Qed.

(** The arguments of the call made for a frame. *)
Local Abbreviation call := (fun f : Frame => (bytes f, sample_rate)).

Lemma logged_loop (maxlen : Z) (frames : list Frame) :
  forall i last st v log segs r v',
    collect_loop V is_speech sample_rate frame_duration_ms threshold maxlen
      i last frames st v = (segs, r, v') ->
    exists j,
      (j <= length frames)%nat /\
      (forall x, r = Ok x -> j = length frames) /\
      collect_loop _ (logged is_speech) sample_rate frame_duration_ms
        threshold maxlen i last frames st (v, log)
      = (segs, r, (v', log ++ map call (firstn j frames))).
Proof.
  induction frames as [| f rest IH];
    intros i last st v log segs r v' H; cbn [collect_loop] in H |- *.
  - injection H as <- <- <-. exists 0%nat. cbn. rewrite app_nil_r. auto.
  - unfold logged at 1.
    destruct (is_speech v (bytes f) sample_rate) as [[speech | e] v1].
    + destruct (collect_frame _ _ _ i f speech st) as [st1 out].
      destruct (collect_loop V _ _ _ _ _ (i + 1) (Some i) rest st1 v1)
        as [[s1 r1] v2] eqn:Hrest.
      injection H as <- <- <-.
      destruct (IH _ _ _ _ (log ++ [call f]) _ _ _ Hrest)
        as (j & Hj & Hall & ->).
      exists (S j). cbn [length firstn map].
      rewrite <- app_assoc. cbn [app].
      split; [lia | split; [| reflexivity]].
      intros x Hx. f_equal. eauto.
    + injection H as <- <- <-. exists 1%nat. cbn [length firstn map].
      split; [lia | split; [discriminate |]].
      now destruct rest.
Qed.

(** C7: the classifier is called once for each frame, in frame order,
    with that frame's bytes and the sample rate: after a run that ends
    without an exception the calls made are exactly those, and after any run
    they are those for an initial part of the frames.  Recording the calls
    changes nothing of what is yielded. *)
Theorem classifier_calls (frames : list Frame) (v : V) :
  let r := run (logged is_speech) (v, []) frames in
  (ending r = Ok tt -> snd (vad_after r) = map call frames) /\
  (exists j, (j <= length frames)%nat /\
             snd (vad_after r) = map call (firstn j frames)) /\
  segments r = segments (run is_speech v frames) /\
  ending r = ending (run is_speech v frames).
Proof.
  unfold vad_collector.
  destruct (new_ring_buffer padding_duration_ms frame_duration_ms)
    as [maxlen | e]; cbn [bind].
  2:{ cbn. repeat split; try discriminate. exists 0%nat. split; [lia | reflexivity]. }
  unfold collect.
  destruct (collect_loop V is_speech _ _ _ maxlen 0 None frames init_state v)
    as [[segs r] v'] eqn:Hloop.
  destruct (logged_loop maxlen frames _ _ _ _ [] _ _ _ Hloop)
    as (j & Hj & Hall & ->). cbn [app].
  destruct r as [[st last] | e].
  - rewrite (Hall _ eq_refl), firstn_all.
    destruct (flush frame_duration_ms st last); cbn;
      repeat split; try discriminate; try reflexivity;
      exists (length frames); rewrite firstn_all; auto.
  - cbn. repeat split; try discriminate. eauto.
Qed.

End WholeRun.

Lemma empty_input_witness :
  vad_collector 16000 30 300 0.5 always_voiced tt [] = mkRun [] (Ok tt) tt.
Proof.
  apply (empty_input unit always_voiced 16000 30 300 0.5 tt).
  - lia.
  - split; [lia | reflexivity].
Defined.

(** Without a condition on the durations the run on the empty sequence
    can end in an exception, since the ring buffer is created first: the
    division raises ZeroDivisionError at [frame_duration_ms = 0], and with
    positive durations [deque] raises OverflowError once the quotient
    reaches [2 ^ 63]. *)
Lemma empty_input_raises :
  ending (vad_collector 16000 0 300 0.5 always_voiced tt [])
  = Raise ZeroDivisionError /\
  ending (vad_collector 16000 30 (2 ^ 63 * 30) 0.5 always_voiced tt [])
  = Raise OverflowError /\
  ~ (forall frame_duration_ms padding_duration_ms : Z,
       0 < frame_duration_ms -> 0 < padding_duration_ms ->
       ending (vad_collector 16000 frame_duration_ms padding_duration_ms 0.5
                 always_voiced tt [])
       = Ok tt).
Proof.
  assert (Hbig : ending (vad_collector 16000 30 (2 ^ 63 * 30) 0.5
                           always_voiced tt [])
                 = Raise OverflowError) by (vm_compute; reflexivity).
  split; [vm_compute; reflexivity | split; [exact Hbig |]].
  intros H. specialize (H 30 (2 ^ 63 * 30) eq_refl eq_refl).
  rewrite Hbig in H. discriminate H.
Qed.

Lemma classifier_calls_witness :
  snd (vad_after (vad_collector 16000 30 60 0.5 (logged scripted)
                    (script_21, []) (sample_frames 21)))
  = map (fun f => (bytes f, 16000)) (sample_frames 21).
Proof.
  apply (proj1 (classifier_calls _ scripted 16000 30 60 0.5
                  (sample_frames 21) script_21)).
  vm_compute; reflexivity.
Defined.


Section Determinism.

Variables V1 V2 : Type.
Variable is_speech1 : V1 -> list byte -> Z -> result bool * V1.
Variable is_speech2 : V2 -> list byte -> Z -> result bool * V2.
Variable sample_rate frame_duration_ms padding_duration_ms : Z.
Variable threshold : float.

Lemma collect_loop_answers (maxlen : Z) (frames : list Frame) :
  forall i last st v1 v2,
    answers is_speech1 sample_rate v1 frames
    = answers is_speech2 sample_rate v2 frames ->
    fst (collect_loop V1 is_speech1 sample_rate frame_duration_ms threshold
           maxlen i last frames st v1)
    = fst (collect_loop V2 is_speech2 sample_rate frame_duration_ms threshold
             maxlen i last frames st v2).
Proof.
  induction frames as [| f rest IH]; intros i last st v1 v2 H;
    cbn [collect_loop answers] in *; [reflexivity |].
  destruct (is_speech1 v1 (bytes f) sample_rate) as [[b1 | e1] w1],
           (is_speech2 v2 (bytes f) sample_rate) as [[b2 | e2] w2];
    try discriminate H; cbn [fst].
  - injection H as -> H.
    destruct (collect_frame _ _ _ i f b2 st) as [st1 out].
    specialize (IH (i + 1) (Some i) st1 w1 w2 H).
    destruct (collect_loop V1 _ _ _ _ _ _ _ rest st1 w1) as [[s1 r1] x1],
             (collect_loop V2 _ _ _ _ _ _ _ rest st1 w2) as [[s2 r2] x2].
    cbn [fst] in *. congruence.
  - congruence.
Qed.

(** C8: two runs with the same parameters and the same frames, in which
    the classifiers give the same answer for each frame, yield the same
    segments in the same order and end the same way. *)
Theorem vad_collector_deterministic (frames : list Frame) (v1 : V1) (v2 : V2) :
  answers is_speech1 sample_rate v1 frames
  = answers is_speech2 sample_rate v2 frames ->
  segments (vad_collector sample_rate frame_duration_ms padding_duration_ms
              threshold is_speech1 v1 frames)
  = segments (vad_collector sample_rate frame_duration_ms padding_duration_ms
                threshold is_speech2 v2 frames) /\
  ending (vad_collector sample_rate frame_duration_ms padding_duration_ms
            threshold is_speech1 v1 frames)
  = ending (vad_collector sample_rate frame_duration_ms padding_duration_ms
              threshold is_speech2 v2 frames).
Proof.
  intros H. unfold vad_collector.
  destruct (new_ring_buffer padding_duration_ms frame_duration_ms)
    as [maxlen | e]; [| split; reflexivity].
  unfold collect.
  pose proof (collect_loop_answers maxlen frames 0 None init_state v1 v2 H)
    as Hloop.
  destruct (collect_loop V1 _ _ _ _ _ _ _ frames init_state v1)
    as [[s1 r1] x1],
           (collect_loop V2 _ _ _ _ _ _ _ frames init_state v2)
    as [[s2 r2] x2].
  cbn [fst] in Hloop. injection Hloop as -> ->.
  destruct r2 as [[st last] | e]; [| split; reflexivity].
  destruct (flush frame_duration_ms st last); split; reflexivity.
Qed.

End Determinism.

(** A classifier that always answers [True] and one that replays eight
    [True]s give the same run on eight frames. *)
Lemma vad_collector_deterministic_witness :
  segments (vad_collector 16000 30 300 0.5 always_voiced tt (sample_frames 8))
  = segments (vad_collector 16000 30 300 0.5 scripted
                (repeat (Ok true) 8) (sample_frames 8)).
Proof.
  apply (proj1 (vad_collector_deterministic _ _ always_voiced scripted
                  16000 30 300 0.5 (sample_frames 8) tt (repeat (Ok true) 8)
                  eq_refl)).
Defined.

(** ** Order of the segments in time *)

Lemma chained_app (prev : Z) (a b : list Segment) :
  chained prev (a ++ b) <-> chained prev a /\ chained (last_end prev a) b.
Proof.
  revert prev. induction a as [| s a IH]; intros prev; cbn [app chained last_end].
  - tauto.
  - rewrite IH. tauto.
Qed.

Lemma last_end_app (prev : Z) (a b : list Segment) :
  last_end prev (a ++ b) = last_end (last_end prev a) b.
Proof.
  revert prev. induction a as [| s a IH]; intros prev; cbn [app last_end];
    [reflexivity | apply IH].
Qed.

Lemma chained_ordered (prev : Z) (segs : list Segment) :
  chained prev segs -> ordered segs.
Proof.
  intros H. split.
  - revert prev H. induction segs as [| s segs IH]; intros prev H x Hin;
      [destruct Hin |].
    destruct H as (_ & Hs & Hrest), Hin as [<- | Hin]; [exact Hs |].
    eapply IH; eassumption.
  - intros pre a b post ->. apply chained_app in H as [_ H].
    cbn [chained] in H. tauto.
Qed.

Section Ordering.

Variable V : Type.
Variable is_speech : V -> list byte -> Z -> result bool * V.
Variable sample_rate frame_duration_ms : Z.
Variable threshold : float.
Variable maxlen : Z.
Hypothesis duration_pos : 0 < frame_duration_ms.

Local Abbreviation loop :=
  (collect_loop V is_speech sample_rate frame_duration_ms threshold maxlen).
Local Abbreviation body := (collect_frame frame_duration_ms threshold maxlen).

(** One pass through the loop body keeps the locals bounded, and a
    segment it yields starts no earlier than the previous one ended. *)
Lemma collect_frame_bounded (i lo : Z) (frame : Frame) (speech : bool)
    (st : state) :
  bounded_by i lo st ->
  exists lo',
    bounded_by (i + 1) lo' (fst (body i frame speech st)) /\
    chained (frame_duration_ms * lo) (snd (body i frame speech st)) /\
    last_end (frame_duration_ms * lo) (snd (body i frame speech st))
    = frame_duration_ms * lo'.
Proof.
  intros (Hlo & Hoff & Hon). unfold collect_frame, bounded_by.
  pose proof (deque_append_len maxlen (ring_buffer st) (frame, speech)) as Hrb.
  destruct (triggered st); cbn [negb].
  - destruct (Hon eq_refl) as [Hi Hvf].
    destruct (exceeds _ _ (num_unvoiced _));
      cbn [fst snd triggered voiced_frames ring_buffer chained last_end
           start_ms end_ms].
    + exists i. rewrite len_app, len_cons.
      pose proof (len_nonneg (voiced_frames st)).
      change (len (@nil Frame)) with 0.
      change (len (@nil (Frame * bool))) with 0.
      repeat split; try lia; try discriminate;
        (apply Z.mul_le_mono_nonneg_l || apply Z.mul_lt_mono_pos_l); lia.
    + exists lo. rewrite len_app, len_cons.
      change (len (@nil Frame)) with 0.
      repeat split; try lia; try discriminate.
  - destruct (Hoff eq_refl) as [Hvf Hlen].
    destruct (exceeds _ _ (num_voiced _));
      cbn [fst snd triggered voiced_frames ring_buffer chained last_end];
      exists lo.
    + rewrite Hvf. cbn [app]. unfold len at 2. rewrite length_map.
      fold (len (deque_append maxlen (ring_buffer st) (frame, speech))).
      repeat split; try lia; try discriminate.
    + repeat split; try lia; try discriminate; assumption.
Qed.

Lemma collect_loop_bounded (frames : list Frame) :
  forall i lo last st v segs r v',
    bounded_by i lo st ->
    loop i last frames st v = (segs, r, v') ->
    chained (frame_duration_ms * lo) segs /\
    forall st' last', r = Ok (st', last') ->
      exists lo',
        bounded_by (i + len frames) lo' st' /\
        last_end (frame_duration_ms * lo) segs = frame_duration_ms * lo'.
Proof.
  induction frames as [| f rest IH];
    intros i lo last st v segs r v' Hinv H; cbn [collect_loop] in H.
  - injection H as <- <- _. split; [exact I |].
    intros st' last' [= <- _]. exists lo.
    change (len (@nil Frame)) with 0. rewrite Z.add_0_r. auto.
  - destruct (is_speech v (bytes f) sample_rate) as [[speech | e] v1].
    2:{ injection H as <- <- _. split; [exact I | discriminate]. }
    destruct (collect_frame_bounded i lo f speech st Hinv)
      as (lo1 & Hinv1 & Hout & Hend).
    destruct (body i f speech st) as [st1 out]. cbn [fst snd] in *.
    destruct (loop (i + 1) (Some i) rest st1 v1) as [[s1 r1] v2] eqn:Hrest.
    injection H as <- <- _.
    destruct (IH _ _ _ _ _ _ _ _ Hinv1 Hrest) as [Hs1 Hfinal].
    split.
    + apply chained_app. rewrite Hend. auto.
    + intros st' last' Hr. destruct (Hfinal _ _ Hr) as (lo' & Hinv' & Hend').
      exists lo'. rewrite last_end_app, Hend, len_cons.
      replace (i + (1 + len rest)) with (i + 1 + len rest) by lia. auto.
Qed.

End Ordering.

(** C10: the segments of a run are ordered and do not overlap in time:
    each one ends after it starts, and each one starts no earlier than the
    one before it ended (frame durations being positive). *)
Theorem segments_ordered {V : Type}
    (is_speech : V -> list byte -> Z -> result bool * V)
    (sample_rate frame_duration_ms padding_duration_ms : Z)
    (threshold : float) (frames : list Frame) (v : V) :
  0 < frame_duration_ms ->
  ordered (segments (vad_collector sample_rate frame_duration_ms
                       padding_duration_ms threshold is_speech v frames)).
Proof.
  intros Hpos. unfold vad_collector.
  destruct (new_ring_buffer padding_duration_ms frame_duration_ms)
    as [maxlen | e]; [| split; [intros s [] | intros [| ? ?] ? ? ? [=]]].
  apply (chained_ordered (frame_duration_ms * -1)).
  unfold collect.
  destruct (collect_loop V is_speech sample_rate frame_duration_ms threshold
              maxlen 0 None frames init_state v) as [[segs r] v'] eqn:Hloop.
  assert (Hinit : bounded_by 0 (-1) init_state).
  { unfold bounded_by, init_state. cbn. repeat split; try lia; discriminate. }
  destruct (collect_loop_bounded V is_speech sample_rate frame_duration_ms
              threshold maxlen Hpos frames _ _ _ _ _ _ _ _ Hinit Hloop)
    as [Hsegs Hfinal].
  destruct r as [[st last] | e]; cbn [segments]; [| exact Hsegs].
  destruct (Hfinal _ _ eq_refl) as (lo & (Hlo & Hoff & Hon) & Hend).
  pose proof (collect_loop_index _ _ _ _ _ _ _ _ _ _ _ _ _ _ _ Hloop) as Hlast.
  unfold flush.
  destruct (voiced_frames st) as [| f0 vf] eqn:Hvf; cbn [segments].
  { now rewrite app_nil_r. }
  destruct (triggered st) eqn:Htrig;
    [| destruct (Hoff eq_refl) as [Hnil _]; congruence].
  destruct (Hon eq_refl) as [Hn Hlen].
  destruct frames as [| f fs]; [cbn in Hn; lia |].
  subst last. cbn [segments].
  apply chained_app. split; [exact Hsegs |].
  rewrite Hend. cbn [chained start_ms end_ms fst snd].
  pose proof (len_nonneg (f0 :: vf)).
  repeat split.
  - apply Z.mul_le_mono_nonneg_l; lia.
  - apply Z.mul_lt_mono_pos_l; lia.
Qed.

Lemma segments_ordered_witness :
  ordered (segments (vad_collector 16000 30 60 0.5 scripted script_21
                       (sample_frames 21))).
Proof.
  apply (segments_ordered scripted 16000 30 60 0.5 (sample_frames 21)
           script_21).
  lia.
Defined.

(** ** Runs in which every frame is voiced *)

(** With the pipeline's threshold 0.5 and a window of 10 entries, a count
    exceeds [threshold * maxlen] exactly when it is above 5. *)
Lemma exceeds_half_10 (k : Z) : exceeds 0.5 10 k = (5 <? k).
Proof.
  unfold exceeds, int_gt_float.
  let sf := eval vm_compute in (Prim2SF (0.5 * float_of_Z 10)%float) in
  change (Prim2SF (0.5 * float_of_Z 10)%float) with sf.
  cbv beta iota zeta.
  destruct (Z.ltb_spec 5 k); [apply Z.ltb_lt | apply Z.ltb_ge]; lia.
Qed.

Section AllVoiced.

Variable sample_rate frame_duration_ms : Z.
Variable threshold : float.
Variable maxlen : Z.

(** [t] is the least count that exceeds [threshold * maxlen], and the
    window can hold that many entries. *)
Variable t : Z.
Hypothesis t_fits : 1 <= t <= maxlen.
Hypothesis t_exceeds : exceeds threshold maxlen t = true.
Hypothesis t_least : forall k, 0 <= k < t -> exceeds threshold maxlen k = false.

Local Abbreviation loop :=
  (collect_loop unit always_voiced sample_rate frame_duration_ms threshold
     maxlen).
Local Abbreviation voiced := (map (fun f : Frame => (f, true))).

Lemma num_voiced_all (fs : list Frame) : num_voiced (voiced fs) = len fs.
Proof.
  unfold num_voiced, len. f_equal.
  induction fs as [| f fs IH]; cbn; [reflexivity | now rewrite IH].
Qed.

Lemma num_unvoiced_all (fs : list Frame) : num_unvoiced (voiced fs) = 0.
Proof.
  unfold num_unvoiced, len.
  induction fs as [| f fs IH]; cbn; [reflexivity | exact IH].
Qed.

Lemma deque_append_voiced (fs : list Frame) (f : Frame) :
  exists fs', deque_append maxlen (voiced fs) (f, true) = voiced fs'.
Proof.
  unfold deque_append.
  replace (voiced fs ++ [(f, true)]) with (voiced (fs ++ [f]))
    by (now rewrite map_app).
  destruct (maxlen <? len (voiced (fs ++ [f]))).
  - exists (tl (fs ++ [f])). now destruct (fs ++ [f]).
  - now exists (fs ++ [f]).
Qed.

(** Once TRIGGERED, voiced frames are collected and nothing is yielded. *)
Lemma all_voiced_triggered (frames : list Frame) :
  forall i last window vf,
    exists window' last',
      loop i last frames (mkState (voiced window) true vf) tt
      = ([], Ok (mkState (voiced window') true (vf ++ frames), last'), tt).
Proof.
  induction frames as [| f rest IH]; intros i last window vf;
    cbn [collect_loop always_voiced].
  - exists window, last. now rewrite app_nil_r.
  - unfold collect_frame. cbn [triggered negb voiced_frames ring_buffer].
    destruct (deque_append_voiced window f) as [window1 ->].
    rewrite num_unvoiced_all, (t_least 0) by lia.
    destruct (IH (i + 1) (Some i) window1 (vf ++ [f])) as (w & l & ->).
    exists w, l. now rewrite <- app_assoc.
Qed.

(** Before that, the window fills with voiced frames until it holds [t]
    of them. *)
Lemma all_voiced_not_triggered (frames : list Frame) :
  forall i last seen,
    len seen < t -> t <= len seen + len frames ->
    exists window' last',
      loop i last frames (mkState (voiced seen) false []) tt
      = ([], Ok (mkState (voiced window') true (seen ++ frames), last'), tt).
Proof.
  induction frames as [| f rest IH]; intros i last seen Hlt Hge.
  - change (len (@nil Frame)) with 0 in Hge. lia.
  - cbn [collect_loop always_voiced]. unfold collect_frame.
    cbn [triggered negb voiced_frames ring_buffer].
    assert (Hpush : deque_append maxlen (voiced seen) (f, true)
                    = voiced (seen ++ [f])).
    { unfold deque_append. rewrite map_app. cbn [map].
      replace (maxlen <? len (voiced seen ++ [(f, true)])) with false;
        [reflexivity |].
      symmetry. apply Z.ltb_ge. rewrite len_app. unfold len at 1.
      rewrite length_map. fold (len seen). cbn. lia. }
    rewrite Hpush, num_voiced_all, len_app.
    change (len [f]) with 1. rewrite len_cons in Hge.
    destruct (Z.eq_dec (len seen + 1) t) as [Heq | Hne].
    + rewrite Heq, t_exceeds. cbn [app].
      destruct (all_voiced_triggered rest (i + 1) (Some i) []
                  (map fst (voiced (seen ++ [f])))) as (w & l & Htr).
      change (voiced []) with (@nil (Frame * bool)) in Htr. rewrite Htr.
      exists w, l. rewrite map_map. cbn [fst]. rewrite map_id.
      now rewrite <- app_assoc.
    + pose proof (len_nonneg seen).
      rewrite (t_least (len seen + 1)) by lia.
      destruct (IH (i + 1) (Some i) (seen ++ [f])) as (w & l & ->).
      * rewrite len_app. change (len [f]) with 1. lia.
      * rewrite len_app. change (len [f]) with 1. lia.
      * exists w, l. now rewrite <- app_assoc.
Qed.

(** C9: when every frame is classified voiced and there are enough
    frames to trigger, the segmenter triggers and never detriggers; at the
    end [voiced_frames] holds every frame, one more than the index of the
    last, and the single segment yielded by the flush starts at
    [- frame_duration_ms], which is negative for a positive duration. *)
Theorem all_voiced_negative_start (padding_duration_ms : Z)
    (frames : list Frame) :
  new_ring_buffer padding_duration_ms frame_duration_ms = Ok maxlen ->
  0 < frame_duration_ms ->
  t <= len frames ->
  (exists window last,
     loop 0 None frames init_state tt
     = ([], Ok (mkState window true frames, last), tt)) /\
  vad_collector sample_rate frame_duration_ms padding_duration_ms threshold
    always_voiced tt frames
  = mkRun [(join_bytes frames, - frame_duration_ms,
            frame_duration_ms * len frames)] (Ok tt) tt /\
  - frame_duration_ms < 0.
Proof.
  intros Hbuf Hpos Hlen.
  destruct (all_voiced_not_triggered frames 0 None [])
    as (w & l & Hloop); [cbn; lia | cbn; lia |].
  cbn [app] in Hloop. change (voiced []) with (@nil (Frame * bool)) in Hloop.
  fold init_state in Hloop.
  split; [eauto |]. split; [| lia].
  unfold vad_collector. rewrite Hbuf. unfold collect. rewrite Hloop.
  pose proof (collect_loop_index _ _ _ _ _ _ _ _ _ _ _ _ _ _ _ Hloop) as Hl.
  unfold flush. cbn [voiced_frames].
  destruct frames as [| f fs]; [cbn in Hlen; lia |].
  subst l. cbn [app]. do 3 f_equal; [f_equal |]; lia.
Qed.

End AllVoiced.

(** Eight voiced frames with the pipeline's setting: one segment, from
    -30 ms to 240 ms. *)
Lemma all_voiced_negative_start_witness :
  vad_collector 16000 30 300 0.5 always_voiced tt (sample_frames 8)
  = mkRun [(join_bytes (sample_frames 8), -30, 240)] (Ok tt) tt
  /\ -30 < 0.
Proof.
  refine (proj2 (all_voiced_negative_start 16000 30 0.5 10 6 _ _ _ 300
                   (sample_frames 8) _ _ _)).
  - lia.
  - vm_compute; reflexivity.
  - intros k Hk. rewrite exceeds_half_10. apply Z.ltb_ge. lia.
  - vm_compute; reflexivity.
  - lia.
  - vm_compute. discriminate.
Defined.


(** ** More on the framer *)

Lemma slice_within {A : Type} (l : list A) (lo hi : Z) :
  0 <= lo <= hi -> hi <= len l ->
  slice l lo hi = firstn (Z.to_nat (hi - lo)) (skipn (Z.to_nat lo) l).
Proof.
  intros Hlo Hhi. unfold slice.
  destruct (Z.ltb_spec hi 0); [lia |].
  destruct (Z.ltb_spec lo 0); [lia |].
  rewrite !Z.min_l by lia. reflexivity.
Qed.

Lemma slice_len {A : Type} (l : list A) (lo hi : Z) :
  0 <= lo <= hi -> hi <= len l -> len (slice l lo hi) = hi - lo.
Proof.
  intros Hlo Hhi. rewrite slice_within by assumption.
  unfold len in *. rewrite length_firstn, length_skipn. lia.
Qed.

Lemma nth_error_tiles (n : Z) (d : float) (audio : list byte) (c k : nat)
    (f : Frame) :
  nth_error (map (frame_at n d audio) (seq 0 c)) k = Some f ->
  (k < c)%nat /\ f = frame_at n d audio k.
Proof.
  intros H. rewrite nth_error_map in H.
  destruct (nth_error (seq 0 c) k) as [j |] eqn:Hj; [| discriminate].
  assert (Hlt : (k < length (seq 0 c))%nat)
    by (apply nth_error_Some; congruence).
  rewrite length_seq in Hlt.
  pose proof (nth_error_nth _ _ 0%nat Hj) as Hnth.
  rewrite seq_nth in Hnth by exact Hlt.
  cbn [option_map] in H. injection H as <-. split; [exact Hlt |].
  f_equal. lia.
Qed.

Lemma frame_count_fuel (n : Z) (audio : list byte) (fuel : nat) :
  0 < n -> (length audio < fuel)%nat ->
  (frame_count n (len audio) < fuel)%nat.
Proof.
  intros Hn Hfuel.
  pose proof (frame_count_le n (len audio) Hn ltac:(unfold len; lia)).
  unfold len in *. nia.
Qed.

Section FramerRuns.

Variable sample_rate frame_duration_ms n : Z.
Variable d : float.
Variable audio : list byte.
Hypothesis length_computed : frame_len sample_rate frame_duration_ms = Ok n.
Hypothesis duration_computed : frame_duration n sample_rate = Ok d.

(** X1: with a positive frame length the generator stops after
    [max(0, (len(audio) - 1) // n)] frames; frame [k] is
    [audio[k*n : k*n + n]], lies inside the input and is exactly [n] bytes
    long: a short frame is never yielded. *)
Theorem frame_generator_frames (fuel : nat) :
  0 < n ->
  (length audio < fuel)%nat ->
  exists fs,
    frame_generator fuel frame_duration_ms audio sample_rate = Ok (Some fs) /\
    len fs = Z.max 0 ((len audio - 1) / n) /\
    (forall k, (k < length fs)%nat <-> Z.of_nat k * n + n < len audio) /\
    (forall k f, nth_error fs k = Some f ->
       bytes f = slice audio (Z.of_nat k * n) (Z.of_nat k * n + n) /\
       len (bytes f) = n).
Proof.
  intros Hn Hfuel. eexists. split.
  - apply (frame_generator_tiles _ _ n d); try assumption.
    now apply frame_count_fuel.
  - rewrite length_map, length_seq.
    assert (Hlen : len (map (frame_at n d audio)
                          (seq 0 (frame_count n (len audio))))
                   = Z.of_nat (frame_count n (len audio)))
      by (unfold len at 1; now rewrite length_map, length_seq).
    rewrite Hlen.
    split; [unfold frame_count; lia |]. split.
    + intros k. rewrite <- Nat.ltb_lt, <- Z.ltb_lt.
      now rewrite (frame_count_spec n audio Hn k).
    + intros k f Hk. apply nth_error_tiles in Hk as [Hlt ->].
      cbn [frame_at bytes]. split; [reflexivity |].
      apply Nat.ltb_lt in Hlt.
      rewrite <- (frame_count_spec n audio Hn k) in Hlt.
      apply Z.ltb_lt in Hlt.
      rewrite slice_len; lia.
Qed.

(** X2: the frames put end to end are the first [count * n] bytes of the
    input, so nothing is reordered, repeated or skipped; what is left out
    is a tail of at least one and at most [n] bytes of any non-empty input,
    a whole frame when the length is a multiple of [n]. *)
Theorem frame_generator_drops_tail (fuel : nat) :
  0 < n ->
  (length audio < fuel)%nat ->
  exists fs,
    frame_generator fuel frame_duration_ms audio sample_rate = Ok (Some fs) /\
    concat (map bytes fs) = firstn (Z.to_nat (len fs * n)) audio /\
    (audio <> [] -> 1 <= len audio - len fs * n <= n) /\
    (forall m, 0 < m -> len audio = m * n -> len fs = m - 1).
Proof.
  intros Hn Hfuel. eexists. split.
  - apply (frame_generator_tiles _ _ n d); try assumption.
    now apply frame_count_fuel.
  - pose proof (frame_count_le n (len audio) Hn ltac:(unfold len; lia)) as Hle.
    assert (Hlen : len (map (frame_at n d audio)
                          (seq 0 (frame_count n (len audio))))
                   = Z.of_nat (frame_count n (len audio)))
      by (unfold len at 1; now rewrite length_map, length_seq).
    rewrite Hlen. split; [| split].
    + rewrite (frames_concat n d audio Hn (frame_count n (len audio)) 0)
        by exact Hle.
      cbn [Nat.add]. replace (Z.of_nat 0 * n) with 0 by lia.
      rewrite slice_within by lia.
      now rewrite Z.sub_0_r.
    + intros Hne. unfold frame_count in *.
      assert (0 < len audio) by (destruct audio; [congruence | cbn; lia]).
      rewrite Z2Nat.id in * by (apply Z.div_pos; lia).
      pose proof (Z.mul_div_le (len audio - 1) n Hn).
      pose proof (Z.mul_succ_div_gt (len audio - 1) n Hn). lia.
    + intros m Hm HL. rewrite HL, (frame_count_exact n m Hn Hm). lia.
Qed.

(** X3: with a frame length that is zero or negative the loop condition
    [offset + n < len(audio)] never becomes false once it holds: the
    generator yields frames for ever, whatever the fuel. *)
Theorem frame_generator_never_stops (fuel : nat) :
  n <= 0 ->
  n < len audio ->
  frame_generator fuel frame_duration_ms audio sample_rate = Ok None.
Proof.
  intros Hn Hlt. unfold frame_generator.
  rewrite length_computed. cbn [bind]. rewrite duration_computed. cbn [bind].
  f_equal.
  assert (Hloop : forall k offset ts, offset <= 0 ->
            frame_loop k n d audio offset ts = None).
  { induction k as [| k IH]; intros offset ts Hoff; cbn [frame_loop];
      [reflexivity |].
    replace (offset + n <? len audio) with true
      by (symmetry; apply Z.ltb_lt; lia).
    now rewrite IH by lia. }
  apply Hloop. lia.
Qed.

End FramerRuns.

Lemma frame_generator_frames_witness :
  exists fs,
    frame_generator (Z.to_nat 3000) 30 pcm_2999 16000 = Ok (Some fs) /\
    len fs = Z.max 0 ((len pcm_2999 - 1) / 960) /\
    (forall k, (k < length fs)%nat <-> Z.of_nat k * 960 + 960 < len pcm_2999) /\
    (forall k f, nth_error fs k = Some f ->
       bytes f = slice pcm_2999 (Z.of_nat k * 960) (Z.of_nat k * 960 + 960) /\
       len (bytes f) = 960).
Proof.
  refine (frame_generator_frames 16000 30 960 d30 pcm_2999 _ _
            (Z.to_nat 3000) _ _).
  - vm_compute; reflexivity.
  - vm_compute; reflexivity.
  - lia.
  - unfold pcm_2999. rewrite repeat_length. lia.
Defined.

Lemma frame_generator_drops_tail_witness :
  exists fs,
    frame_generator (Z.to_nat 3000) 30 pcm_2999 16000 = Ok (Some fs) /\
    concat (map bytes fs) = firstn (Z.to_nat (len fs * 960)) pcm_2999 /\
    (pcm_2999 <> [] -> 1 <= len pcm_2999 - len fs * 960 <= 960) /\
    (forall m, 0 < m -> len pcm_2999 = m * 960 -> len fs = m - 1).
Proof.
  refine (frame_generator_drops_tail 16000 30 960 d30 pcm_2999 _ _
            (Z.to_nat 3000) _ _).
  - vm_compute; reflexivity.
  - vm_compute; reflexivity.
  - lia.
  - unfold pcm_2999. rewrite repeat_length. lia.
Defined.

(** At 100 Hz and 4 ms the frame length is [int(0.8) = 0]: on a one-byte
    input the generator never stops. *)
Lemma frame_generator_never_stops_witness :
  frame_generator 1000 4 [x00] 100 = Ok None.
Proof.
  refine (frame_generator_never_stops 100 4 0 0%float [x00] _ _ 1000 _ _).
  - vm_compute; reflexivity.
  - vm_compute; reflexivity.
  - lia.
  - cbn; lia.
Defined.

(** X4: with a sample rate of zero the generator raises before it yields
    anything, whatever the other arguments: the division
    [float(n) / sample_rate] fails with ZeroDivisionError unless a
    conversion failed before it. *)
Theorem frame_generator_zero_rate (fuel : nat) (frame_duration_ms : Z)
    (audio : list byte) :
  (exists e, frame_generator fuel frame_duration_ms audio 0 = Raise e) /\
  (forall n fn, frame_len 0 frame_duration_ms = Ok n ->
                float_of_int n = Ok fn ->
                frame_generator fuel frame_duration_ms audio 0
                = Raise ZeroDivisionError).
Proof.
  assert (Hdur : forall n fn, float_of_int n = Ok fn ->
                   frame_duration n 0 = Raise ZeroDivisionError).
  { intros n fn Hfn. unfold frame_duration. rewrite Hfn. reflexivity. }
  assert (Hraise : forall n, exists e, frame_duration n 0 = Raise e).
  { intros n. destruct (float_of_int n) as [fn | e] eqn:Hfn.
    - exists ZeroDivisionError. now apply (Hdur n fn).
    - exists e. unfold frame_duration. now rewrite Hfn. }
  unfold frame_generator. split.
  - destruct (frame_len 0 frame_duration_ms) as [n | e]; cbn [bind];
      [| now exists e].
    destruct (Hraise n) as [e ->]. now exists e.
  - intros n fn -> Hfn. cbn [bind]. now rewrite (Hdur n fn Hfn).
Qed.

Lemma frame_generator_zero_rate_witness :
  frame_generator 10 30 pcm_2999 0 = Raise ZeroDivisionError.
Proof.
  apply (proj2 (frame_generator_zero_rate 10 30 pcm_2999) 0 0%float).
  - vm_compute; reflexivity.
  - vm_compute; reflexivity.
Defined.

(** ** More on the segmenter *)

Lemma new_ring_buffer_range (padding_duration_ms frame_duration_ms m : Z) :
  new_ring_buffer padding_duration_ms frame_duration_ms = Ok m ->
  0 <= m < 2 ^ 63.
Proof.
  unfold new_ring_buffer, deque_new.
  destruct (num_padding_frames padding_duration_ms frame_duration_ms)
    as [k | e]; cbn [bind]; [| discriminate].
  destruct (Z.ltb_spec k 0); [discriminate |].
  destruct (Z.leb_spec (2 ^ 63) k); [discriminate |].
  intros [= <-]. lia.
Qed.

Lemma deque_append_bounded {A : Type} (maxlen : Z) (d : list A) (x : A) :
  0 <= maxlen -> len d <= maxlen -> len (deque_append maxlen d x) <= maxlen.
Proof.
  intros Hm Hd. unfold deque_append.
  destruct (Z.ltb_spec maxlen (len (d ++ [x]))) as [Hlt | Hge]; [| exact Hge].
  destruct d as [| y d]; cbn [app tl].
  - exact Hm.
  - rewrite len_cons in Hd. rewrite len_app. change (len [x]) with 1. lia.
Qed.

Lemma num_voiced_le (rb : list (Frame * bool)) : 0 <= num_voiced rb <= len rb.
Proof.
  unfold num_voiced, len.
  pose proof (filter_length_le (fun p => snd p) rb). lia.
Qed.

Lemma num_unvoiced_le (rb : list (Frame * bool)) :
  0 <= num_unvoiced rb <= len rb.
Proof.
  unfold num_unvoiced, len.
  pose proof (filter_length_le (fun p => negb (snd p)) rb). lia.
Qed.

Section LoopInvariant.

Variable V : Type.
Variable is_speech : V -> list byte -> Z -> result bool * V.
Variable sample_rate frame_duration_ms : Z.
Variable threshold : float.
Variable maxlen : Z.

Local Abbreviation loop :=
  (collect_loop V is_speech sample_rate frame_duration_ms threshold maxlen).
Local Abbreviation body := (collect_frame frame_duration_ms threshold maxlen).

(** [P i st]: what holds of the locals before the frame of index [i];
    [R i s]: what holds of a segment yielded while handling that frame. *)
Variable P : Z -> state -> Prop.
Variable R : Z -> Segment -> Prop.
Hypothesis step_kept :
  forall i f speech st,
    P i st ->
    P (i + 1) (fst (body i f speech st)) /\
    Forall (R i) (snd (body i f speech st)).

(** What one pass through the loop body keeps, the whole loop keeps,
    also when the classifier ends it with an exception. *)
Lemma collect_loop_invariant (frames : list Frame) :
  forall i last st v segs r v',
    P i st ->
    loop i last frames st v = (segs, r, v') ->
    Forall (fun s => exists j, i <= j < i + len frames /\ R j s) segs /\
    forall st' last', r = Ok (st', last') -> P (i + len frames) st'.
Proof.
  induction frames as [| f rest IH]; intros i last st v segs r v' HP H;
    cbn [collect_loop] in H.
  - injection H as <- <- _. split; [constructor |].
    intros st' last' [= <- _]. change (len (@nil Frame)) with 0.
    now rewrite Z.add_0_r.
  - destruct (is_speech v (bytes f) sample_rate) as [[speech | e] v1].
    2:{ injection H as <- <- _. split; [constructor | discriminate]. }
    destruct (step_kept i f speech st HP) as [HP1 Hout].
    destruct (body i f speech st) as [st1 out]. cbn [fst snd] in *.
    destruct (loop (i + 1) (Some i) rest st1 v1) as [[s1 r1] v2] eqn:Hrest.
    injection H as <- <- _.
    destruct (IH _ _ _ _ _ _ _ HP1 Hrest) as [Hsegs Hfinal].
    rewrite len_cons. split.
    + apply Forall_app. split.
      * eapply Forall_impl; [| exact Hout].
        intros s Hs. exists i. pose proof (len_nonneg rest). split; [lia | exact Hs].
      * eapply Forall_impl; [| exact Hsegs].
        intros s (j & Hj & Hs). exists j. split; [lia | exact Hs].
    + intros st' last' Hr.
      replace (i + (1 + len rest)) with (i + 1 + len rest) by lia. eauto.
Qed.

End LoopInvariant.

Section Locals.

Variable V : Type.
Variable is_speech : V -> list byte -> Z -> result bool * V.
Variable sample_rate frame_duration_ms padding_duration_ms : Z.
Variable threshold : float.
Variable maxlen : Z.
Hypothesis ring_buffer_made :
  new_ring_buffer padding_duration_ms frame_duration_ms = Ok maxlen.

Local Abbreviation loop :=
  (collect_loop V is_speech sample_rate frame_duration_ms threshold maxlen).
Local Abbreviation body := (collect_frame frame_duration_ms threshold maxlen).
Local Abbreviation run :=
  (vad_collector sample_rate frame_duration_ms padding_duration_ms threshold
     is_speech).

(** X5: the ring buffer never holds more than [maxlen] entries, after any
    number of frames, and [maxlen] is a non-negative machine-size
    integer. *)
Theorem ring_buffer_bounded (frames : list Frame) (v : V) (k : nat)
    (st : state) :
  state_after is_speech sample_rate frame_duration_ms threshold maxlen
    frames v k st ->
  len (ring_buffer st) <= maxlen /\ 0 <= maxlen < 2 ^ 63.
Proof.
  intros (segs & last & v' & Hrun).
  pose proof (new_ring_buffer_range _ _ _ ring_buffer_made) as Hm.
  split; [| exact Hm].
  refine (proj2 (collect_loop_invariant V is_speech sample_rate
                   frame_duration_ms threshold maxlen
                   (fun _ st => len (ring_buffer st) <= maxlen)
                   (fun _ _ => True) _ _ _ _ _ _ _ _ _ _ Hrun) _ _ eq_refl).
  - intros i f speech st0 Hst. split; [| apply Forall_forall; auto].
    unfold collect_frame.
    pose proof (deque_append_bounded maxlen (ring_buffer st0) (f, speech)
                  (proj1 Hm) Hst).
    destruct (triggered st0); cbn [negb];
      [destruct (exceeds _ _ (num_unvoiced _))
      | destruct (exceeds _ _ (num_voiced _))];
      cbn [fst ring_buffer]; (assumption || (cbn; lia)).
  - cbn. lia.
Qed.

(** While NOT_TRIGGERED nothing is collected. *)
Lemma idle_nothing_collected (frames : list Frame) :
  forall i last st v segs st' last' v',
    (triggered st = false -> voiced_frames st = []) ->
    loop i last frames st v = (segs, Ok (st', last'), v') ->
    triggered st' = false -> voiced_frames st' = [].
Proof.
  intros i last st v segs st' last' v' Hst Hrun.
  refine (proj2 (collect_loop_invariant V is_speech sample_rate
                   frame_duration_ms threshold maxlen
                   (fun _ st => triggered st = false -> voiced_frames st = [])
                   (fun _ _ => True) _ _ _ _ _ _ _ _ _ Hst Hrun) _ _ eq_refl).
  intros j f speech st0 Hst0. split; [| apply Forall_forall; auto].
  unfold collect_frame.
  destruct (triggered st0); cbn [negb];
    [destruct (exceeds _ _ (num_unvoiced _))
    | destruct (exceeds _ _ (num_voiced _))];
    cbn [fst triggered voiced_frames]; auto; discriminate.
Qed.

(** X6: a run that ends NOT_TRIGGERED has nothing left to flush: what
    [vad_collector] yields is what the loop yielded.  The final segment
    exists only for a run that ends TRIGGERED. *)
Theorem idle_end_no_flush (frames : list Frame) (v : V)
    (segs : list Segment) (st : state) (last : option Z) (v' : V) :
  loop 0 None frames init_state v = (segs, Ok (st, last), v') ->
  triggered st = false ->
  voiced_frames st = [] /\ run v frames = mkRun segs (Ok tt) v'.
Proof.
  intros Hrun Hidle.
  assert (Hvf : voiced_frames st = [])
    by exact (idle_nothing_collected frames 0 None init_state v segs st last
                v' (fun _ => eq_refl) Hrun Hidle).
  split; [exact Hvf |].
  unfold vad_collector. rewrite ring_buffer_made. unfold collect.
  rewrite Hrun. unfold flush. rewrite Hvf. now rewrite app_nil_r.
Qed.

(** The code after the loop reads [frame_index] only when a frame has
    bound it. *)
Lemma flush_index_bound (frames : list Frame) (v : V)
    (segs : list Segment) (st : state) (last : option Z) (v' : V) :
  loop 0 None frames init_state v = (segs, Ok (st, last), v') ->
  exists tail, flush frame_duration_ms st last = Ok tail.
Proof.
  intros Hrun. unfold flush.
  destruct (voiced_frames st) as [| f0 vf] eqn:Hvf; [eauto |].
  pose proof (collect_loop_index _ _ _ _ _ _ _ _ _ _ _ _ _ _ _ Hrun) as Hlast.
  destruct frames as [| f fs].
  - cbn in Hrun. injection Hrun as _ <- _ _. discriminate.
  - subst last. eauto.
Qed.

(** Once the ring buffer exists, only the classifier can end the
    generator with an exception. *)
Lemma collect_errors (frames : list Frame) (v : V) (e : exn) :
  ending (run v frames) = Raise e ->
  In (Raise e) (answers is_speech sample_rate v frames).
Proof.
  unfold vad_collector. rewrite ring_buffer_made. unfold collect.
  destruct (loop 0 None frames init_state v) as [[segs r] v'] eqn:Hrun.
  destruct r as [[st last] | e'].
  - destruct (flush_index_bound _ _ _ _ _ _ Hrun) as [tail ->]. discriminate.
  - cbn [ending]. intros [= ->].
    revert Hrun. generalize 0 (@None Z) init_state v segs v'.
    induction frames as [| f rest IH]; intros i last st w s w' H;
      cbn [collect_loop answers] in *; [discriminate |].
    destruct (is_speech w (bytes f) sample_rate) as [[speech | e1] w1].
    + destruct (body i f speech st) as [st1 out].
      destruct (loop (i + 1) (Some i) rest st1 w1) as [[s1 r1] w2] eqn:Hrest.
      injection H as _ -> _. right. eapply IH, Hrest.
    + injection H as _ -> _. now left.
Qed.

(** X8: when the classifier raises on a frame, [vad_collector] ends with
    that exception; what was yielded before stays yielded, later frames are
    not looked at, and frames collected for an unfinished segment are
    lost. *)
Theorem classifier_error_aborts (pre post : list Frame) (frame : Frame)
    (v : V) (segs : list Segment) (st : state) (last : option Z) (v1 : V)
    (e : exn) (v2 : V) :
  loop 0 None pre init_state v = (segs, Ok (st, last), v1) ->
  is_speech v1 (bytes frame) sample_rate = (Raise e, v2) ->
  run v (pre ++ frame :: post) = mkRun segs (Raise e) v2.
Proof.
  intros Hpre Hans.
  unfold vad_collector. rewrite ring_buffer_made. unfold collect.
  rewrite collect_loop_app, Hpre. cbn [collect_loop]. rewrite Hans.
  now rewrite app_nil_r.
Qed.

(** X9: when no count up to [maxlen] exceeds [threshold * maxlen], as
    with a threshold of 1.0 or more, the segmenter never triggers and
    nothing is ever yielded. *)
Theorem never_exceeded_no_segments (frames : list Frame) (v : V) :
  (forall k, 0 <= k <= maxlen -> exceeds threshold maxlen k = false) ->
  segments (run v frames) = [].
Proof.
  intros Hnever.
  pose proof (new_ring_buffer_range _ _ _ ring_buffer_made) as Hm.
  unfold vad_collector. rewrite ring_buffer_made. unfold collect.
  destruct (loop 0 None frames init_state v) as [[segs r] v'] eqn:Hrun.
  set (P := fun (_ : Z) (st : state) =>
              triggered st = false /\ voiced_frames st = []
              /\ len (ring_buffer st) <= maxlen).
  assert (Hstep : forall i f speech st0, P i st0 ->
            P (i + 1) (fst (body i f speech st0)) /\
            Forall (fun _ : Segment => False) (snd (body i f speech st0))).
  { intros i f speech st0 (Hidle & Hvf & Hlen). unfold collect_frame.
    rewrite Hidle. cbn [negb].
    pose proof (deque_append_bounded maxlen (ring_buffer st0) (f, speech)
                  (proj1 Hm) Hlen) as Hrb.
    pose proof (num_voiced_le (deque_append maxlen (ring_buffer st0)
                                 (f, speech))).
    rewrite Hnever by lia. cbn [fst snd]. split; [| constructor].
    unfold P. cbn [triggered voiced_frames ring_buffer]. auto. }
  assert (Hinit : P 0 init_state) by (unfold P; cbn; repeat split; lia).
  destruct (collect_loop_invariant V is_speech sample_rate frame_duration_ms
              threshold maxlen P (fun _ _ => False) Hstep frames 0 None
              init_state v segs r v' Hinit Hrun) as [Hsegs Hfinal].
  assert (segs = []) as ->.
  { destruct segs as [| s segs]; [reflexivity |].
    apply Forall_inv in Hsegs as (j & _ & []). }
  destruct r as [[st last] | e]; [| reflexivity].
  destruct (Hfinal _ _ eq_refl) as (_ & Hvf & _).
  unfold flush. now rewrite Hvf.
Qed.

End Locals.

(** On a finished list of frames, an exception that ends [vad_collector]
    comes from making the ring buffer or from the classifier; the code
    after the loop never raises (in particular [frame_index] is bound
    whenever it is read). *)
Lemma vad_collector_errors {V : Type}
    (is_speech : V -> list byte -> Z -> result bool * V)
    (sample_rate frame_duration_ms padding_duration_ms : Z)
    (threshold : float) (frames : list Frame) (v : V) (e : exn) :
  ending (vad_collector sample_rate frame_duration_ms padding_duration_ms
            threshold is_speech v frames) = Raise e ->
  new_ring_buffer padding_duration_ms frame_duration_ms = Raise e \/
  In (Raise e) (answers is_speech sample_rate v frames).
Proof.
  destruct (new_ring_buffer padding_duration_ms frame_duration_ms)
    as [maxlen | e'] eqn:Hbuf.
  - intros H. right. eapply collect_errors; eassumption.
  - unfold vad_collector. rewrite Hbuf. cbn. intros [= ->]. now left.
Qed.

(** With a threshold of 1.0 and a window of 10 entries a count would
    have to be above 10. *)
Lemma exceeds_one_10 (k : Z) : exceeds 1 10 k = (10 <? k).
Proof.
  unfold exceeds, int_gt_float.
  let sf := eval vm_compute in (Prim2SF (1 * float_of_Z 10)%float) in
  change (Prim2SF (1 * float_of_Z 10)%float) with sf.
  cbv beta iota zeta.
  destruct (Z.ltb_spec 10 k); [apply Z.ltb_lt | apply Z.ltb_ge]; lia.
Qed.

Lemma ring_buffer_bounded_witness :
  len (ring_buffer (mkState [(sample_frame 6, true); (sample_frame 7, true)]
                            true (sample_frames 8))) <= 10
  /\ 0 <= 10 < 2 ^ 63.
Proof.
  refine (ring_buffer_bounded unit always_voiced 16000 30 300 0.5 10 _
            (sample_frames 8) tt 8 _ _).
  - vm_compute; reflexivity.
  - exists [], (Some 7), tt. vm_compute; reflexivity.
Defined.

(** The 21-frame run ends NOT_TRIGGERED, right after its second segment. *)
Lemma idle_end_no_flush_witness :
  map (fun s => (start_ms s, end_ms s))
    (segments (vad_collector 16000 30 60 0.5 scripted script_21
                 (sample_frames 21)))
  = [(0, 150); (150, 600)].
Proof.
  pose proof (fun segs Hrun =>
    proj2 (idle_end_no_flush _ scripted 16000 30 60 0.5 2 eq_refl
             (sample_frames 21) script_21 segs (mkState [] false [])
             (Some 20) [] Hrun eq_refl)) as H.
  erewrite H; [| vm_compute; reflexivity]. reflexivity.
Defined.

(** Eight voiced frames and a classifier that gives up on the ninth: the
    eight frames collected since frame 5 are not yielded. *)
Lemma classifier_error_aborts_witness :
  vad_collector 16000 30 300 0.5 scripted (repeat (Ok true) 8)
    (sample_frames 8 ++ sample_frame 8 :: [sample_frame 9])
  = mkRun [] (Raise VadError) [].
Proof.
  refine (classifier_error_aborts _ scripted 16000 30 300 0.5 10 eq_refl
            (sample_frames 8) [sample_frame 9] (sample_frame 8)
            (repeat (Ok true) 8) []
            (mkState [(sample_frame 6, true); (sample_frame 7, true)] true
                     (sample_frames 8))
            (Some 7) [] VadError [] _ _).
  - vm_compute; reflexivity.
  - reflexivity.
Defined.

Lemma never_exceeded_no_segments_witness :
  segments (vad_collector 16000 30 300 1 always_voiced tt (sample_frames 21))
  = [].
Proof.
  apply (never_exceeded_no_segments unit always_voiced 16000 30 300 1 10
           eq_refl (sample_frames 21) tt).
  intros k Hk. rewrite exceeds_one_10. apply Z.ltb_ge. lia.
Defined.

(** ** What a segment is made of *)

Lemma skipn_cons_len {A : Type} (l : list A) (i : Z) (x : A) (rest : list A) :
  0 <= i -> skipn (Z.to_nat i) l = x :: rest ->
  i + 1 <= len l /\ skipn (Z.to_nat (i + 1)) l = rest.
Proof.
  intros Hi H. split.
  - apply (f_equal (@length A)) in H. rewrite length_skipn in H.
    cbn [length] in H. unfold len. lia.
  - replace (Z.to_nat (i + 1)) with (1 + Z.to_nat i)%nat by lia.
    now rewrite <- skipn_skipn, H.
Qed.

Lemma slice_snoc {A : Type} (l : list A) (a i : Z) (x : A) (rest : list A) :
  0 <= a <= i -> skipn (Z.to_nat i) l = x :: rest ->
  slice l a i ++ [x] = slice l a (i + 1).
Proof.
  intros Ha H.
  destruct (skipn_cons_len l i x rest ltac:(lia) H) as [Hlen _].
  rewrite !slice_within by lia.
  replace (Z.to_nat (i + 1 - a)) with (Z.to_nat (i - a) + 1)%nat by lia.
  rewrite firstn_plus, skipn_skipn.
  replace (Z.to_nat (i - a) + Z.to_nat a)%nat with (Z.to_nat i) by lia.
  now rewrite H.
Qed.

Lemma slice_tl {A : Type} (l : list A) (a i : Z) :
  0 <= a < i -> i <= len l -> tl (slice l a i) = slice l (a + 1) i.
Proof.
  intros Ha Hi. rewrite !slice_within by lia.
  replace (Z.to_nat (i - a)) with (S (Z.to_nat (i - (a + 1)))) by lia.
  replace (Z.to_nat (a + 1)) with (1 + Z.to_nat a)%nat by lia.
  rewrite <- skipn_skipn.
  destruct (skipn (Z.to_nat a) l) as [| y l'] eqn:Hs.
  - apply (f_equal (@length A)) in Hs. rewrite length_skipn in Hs.
    cbn [length] in Hs. unfold len in Hi. lia.
  - reflexivity.
Qed.

Lemma slice_nil {A : Type} (l : list A) (i : Z) :
  0 <= i <= len l -> slice l i i = [].
Proof.
  intros Hi. rewrite slice_within by lia. now rewrite Z.sub_diag.
Qed.

Lemma map_fst_tl {A B : Type} (l : list (A * B)) :
  map fst (tl l) = tl (map fst l).
Proof. now destruct l. Qed.

Lemma cut_from_impl (fd : Z) (frames : list Frame) (rest rest' : Z -> Prop)
    (segs : list Segment) :
  (forall lo, rest lo -> rest' lo) ->
  forall lo, cut_from fd frames lo segs rest -> cut_from fd frames lo segs rest'.
Proof.
  intros Himpl. induction segs as [| s segs IH]; intros lo; cbn [cut_from].
  - apply Himpl.
  - intros (a & b & H1 & H2 & H3 & H4 & H5). exists a, b. auto 6.
Qed.

Lemma cut_from_app (fd : Z) (frames : list Frame) (rest : Z -> Prop)
    (s1 s2 : list Segment) (lo : Z) :
  cut_from fd frames lo s1 (fun lo' => cut_from fd frames lo' s2 rest) ->
  cut_from fd frames lo (s1 ++ s2) rest.
Proof.
  revert lo. induction s1 as [| s s1 IH]; intros lo; cbn [app cut_from].
  - auto.
  - intros (a & b & H1 & H2 & H3 & H4 & H5). exists a, b. auto 6.
Qed.

Section Cutting.

Variable V : Type.
Variable is_speech : V -> list byte -> Z -> result bool * V.
Variable sample_rate frame_duration_ms : Z.
Variable threshold : float.
Variable maxlen : Z.
Variable all : list Frame.

Local Abbreviation loop :=
  (collect_loop V is_speech sample_rate frame_duration_ms threshold maxlen).
Local Abbreviation body := (collect_frame frame_duration_ms threshold maxlen).
Local Abbreviation holds := (holds_run all).

Lemma deque_append_run (i a : Z) (rb : list (Frame * bool)) (f : Frame)
    (speech : bool) (rest : list Frame) :
  0 <= a <= i -> skipn (Z.to_nat i) all = f :: rest ->
  map fst rb = slice all a i ->
  exists a', a <= a' <= i + 1 /\
    map fst (deque_append maxlen rb (f, speech)) = slice all a' (i + 1).
Proof.
  intros Ha Hskip Hrb.
  destruct (skipn_cons_len all i f rest ltac:(lia) Hskip) as [Hlen _].
  assert (Hpush : map fst (rb ++ [(f, speech)]) = slice all a (i + 1)).
  { rewrite map_app, Hrb. cbn [map fst]. now apply (slice_snoc all a i f rest). }
  unfold deque_append. destruct (maxlen <? len (rb ++ [(f, speech)])).
  - exists (a + 1). split; [lia |].
    rewrite map_fst_tl, Hpush. apply slice_tl; lia.
  - exists a. split; [lia | exact Hpush].
Qed.

Lemma collect_frame_cut (i lo : Z) (f : Frame) (speech : bool) (st : state)
    (rest : list Frame) :
  holds i lo st ->
  skipn (Z.to_nat i) all = f :: rest ->
  (snd (body i f speech st) = [] /\
   holds (i + 1) lo (fst (body i f speech st))) \/
  (exists a, lo <= a <= i /\
     snd (body i f speech st)
     = [(join_bytes (slice all a (i + 1)),
         frame_duration_ms * Z.max 0 (a - 1), frame_duration_ms * i)] /\
     holds (i + 1) (i + 1) (fst (body i f speech st))).
Proof.
  intros (Hlo & _ & Hoff & Hon) Hskip.
  destruct (skipn_cons_len all i f rest ltac:(lia) Hskip) as [Hlen _].
  unfold collect_frame, holds_run. destruct (triggered st); cbn [negb].
  - destruct (Hon eq_refl) as (a & Ha & Hvf).
    assert (Hvf' : voiced_frames st ++ [f] = slice all a (i + 1))
      by (rewrite Hvf; apply (slice_snoc all a i f rest); [lia | exact Hskip]).
    rewrite Hvf'.
    destruct (exceeds _ _ (num_unvoiced _));
      cbn [fst snd triggered voiced_frames ring_buffer].
    + right. exists a. split; [lia |]. split.
      * rewrite slice_len by lia. do 3 f_equal. lia.
      * split; [lia |]. split; [lia |]. split; [| discriminate].
        intros _. split; [reflexivity |]. exists (i + 1). split; [lia |].
        cbn [map]. symmetry. apply slice_nil. lia.
    + left. split; [reflexivity |]. split; [lia |]. split; [lia |].
      split; [discriminate |]. intros _. exists a. split; [lia | reflexivity].
  - destruct (Hoff eq_refl) as (Hvf & a & Ha & Hrb).
    destruct (deque_append_run i a (ring_buffer st) f speech rest
                ltac:(lia) Hskip Hrb) as (a' & Ha' & Hrb').
    left. destruct (exceeds _ _ (num_voiced _));
      cbn [fst snd triggered voiced_frames ring_buffer];
      (split; [reflexivity |]); (split; [lia |]); (split; [lia |]).
    + split; [discriminate |]. intros _. exists a'. split; [lia |].
      now rewrite Hvf, Hrb'.
    + split; [| discriminate]. intros _. split; [exact Hvf |].
      exists a'. split; [lia | exact Hrb'].
Qed.

Lemma collect_loop_cut (rest : list Frame) :
  forall i lo last st v segs r v',
    holds i lo st ->
    skipn (Z.to_nat i) all = rest ->
    loop i last rest st v = (segs, r, v') ->
    cut_from frame_duration_ms all lo segs
      (fun lo' => forall st' last', r = Ok (st', last') ->
                    holds (len all) lo' st').
Proof.
  induction rest as [| f rest IH]; intros i lo last st v segs r v' Hinv Hskip H;
    cbn [collect_loop] in H.
  - injection H as <- <- _. cbn [cut_from]. intros st' last' [= <- _].
    assert (i = len all) as <-; [| exact Hinv].
    destruct Hinv as (Hlo & Hi & _).
    apply (f_equal (@length Frame)) in Hskip. rewrite length_skipn in Hskip.
    cbn [length] in Hskip. unfold len in *. lia.
  - destruct (is_speech v (bytes f) sample_rate) as [[speech | e] v1].
    2:{ injection H as <- <- _. cbn [cut_from]. discriminate. }
    destruct (skipn_cons_len all i f rest ltac:(destruct Hinv; lia) Hskip)
      as [Hlen Hskip'].
    destruct (collect_frame_cut i lo f speech st rest Hinv Hskip)
      as [[Hout Hinv'] | (a & Ha & Hout & Hinv')];
      destruct (body i f speech st) as [st1 out]; cbn [fst snd] in *;
      subst out;
      destruct (loop (i + 1) (Some i) rest st1 v1) as [[s1 r1] v2] eqn:Hrest;
      injection H as <- <- _;
      pose proof (IH _ _ _ _ _ _ _ _ Hinv' Hskip' Hrest) as Hcut.
    + exact Hcut.
    + cbn [app cut_from]. exists a, (i + 1).
      replace (i + 1 - 1) with i by lia.
      repeat split; try lia. exact Hcut.
Qed.

End Cutting.

(** What [vad_collector] yields, in terms of the input frames: the
    segments of the loop, cut one after the other, then the flushed one. *)
Lemma vad_collector_cut {V : Type}
    (is_speech : V -> list byte -> Z -> result bool * V)
    (sample_rate frame_duration_ms padding_duration_ms : Z)
    (threshold : float) (frames : list Frame) (v : V) :
  exists mid final,
    segments (vad_collector sample_rate frame_duration_ms padding_duration_ms
                threshold is_speech v frames) = mid ++ final /\
    cut_from frame_duration_ms frames 0 mid
      (fun lo =>
         final = [] \/
         exists a, lo <= a /\ a < len frames /\
           final = [(concat (map bytes (slice frames a (len frames))),
                     frame_duration_ms * (a - 1),
                     frame_duration_ms * len frames)]).
Proof.
  unfold vad_collector.
  destruct (new_ring_buffer padding_duration_ms frame_duration_ms)
    as [maxlen | e]; [| exists [], []; cbn; auto].
  unfold collect.
  destruct (collect_loop V is_speech sample_rate frame_duration_ms threshold
              maxlen 0 None frames init_state v) as [[segs r] v'] eqn:Hloop.
  assert (Hinit : holds_run frames 0 0 init_state).
  { unfold holds_run. pose proof (len_nonneg frames).
    repeat split; try lia; try discriminate.
    exists 0. split; [lia |]. cbn [init_state ring_buffer map]. symmetry.
    apply slice_nil. lia. }
  pose proof (collect_loop_cut V is_speech sample_rate frame_duration_ms
                threshold maxlen frames frames 0 0 None init_state v segs r v'
                Hinit eq_refl Hloop) as Hcut.
  destruct r as [[st last] | e].
  2:{ exists segs, []. split; [now rewrite app_nil_r |].
      eapply cut_from_impl; [| exact Hcut]. cbn. auto. }
  unfold flush. destruct (voiced_frames st) as [| f0 vf] eqn:Hvf.
  { exists segs, []. split; [reflexivity |].
    eapply cut_from_impl; [| exact Hcut]. cbn. auto. }
  pose proof (collect_loop_index _ _ _ _ _ _ _ _ _ _ _ _ _ _ _ Hloop) as Hlast.
  destruct frames as [| f fs] eqn:Hframes.
  { cbn in Hloop. injection Hloop as _ <- _ _. discriminate. }
  rewrite <- Hframes in *. subst last. cbn [segments]. eexists segs, _.
  split; [reflexivity |].
  eapply cut_from_impl; [| exact Hcut]. cbn beta.
  intros lo Hfinal. right.
  destruct (Hfinal _ _ eq_refl) as (Hlo & _ & Hoff & Hon).
  destruct (triggered st).
  2:{ destruct (Hoff eq_refl) as [Hnil _]. congruence. }
  destruct (Hon eq_refl) as (a & Ha & Hrun).
  assert (a < len frames).
  { destruct (Z.eq_dec a (len frames)) as [-> |]; [| lia].
    rewrite slice_nil in Hrun by lia. congruence. }
  exists a. split; [lia |]. split; [assumption |].
  rewrite <- Hvf, Hrun, slice_len by lia.
  do 3 f_equal; lia.
Qed.

(** X10: the bytes of every segment are the bytes of consecutive input
    frames put end to end, unchanged and in order ([concat (map bytes
    frames[a:b])]), and the segments take their frames from
    disjoint stretches of the input, one after the other.  A segment
    yielded inside the loop that holds the frames [a .. b-1] is stamped
    [frame_duration_ms * max(0, a-1)] to [frame_duration_ms * (b-1)], one
    frame earlier than the frames it holds; the flushed segment holds the
    frames [a .. len(frames)-1] and is stamped [frame_duration_ms * (a-1)]
    to [frame_duration_ms * len(frames)], one frame longer than it
    holds. *)
Theorem segments_cut_from_frames {V : Type}
    (is_speech : V -> list byte -> Z -> result bool * V)
    (sample_rate frame_duration_ms padding_duration_ms : Z)
    (threshold : float) (frames : list Frame) (v : V) :
  exists mid final,
    segments (vad_collector sample_rate frame_duration_ms padding_duration_ms
                threshold is_speech v frames) = mid ++ final /\
    cut_from frame_duration_ms frames 0 mid
      (fun lo =>
         final = [] \/
         exists a, lo <= a /\ a < len frames /\
           final = [(concat (map bytes (slice frames a (len frames))),
                     frame_duration_ms * (a - 1),
                     frame_duration_ms * len frames)]).
Proof. apply vad_collector_cut. Qed.

Lemma cut_from_bounds (fd : Z) (frames : list Frame) (rest : Z -> Prop)
    (mid : list Segment) :
  0 < fd ->
  forall lo, 0 <= lo ->
    cut_from fd frames lo mid rest ->
    Forall (fun s => 0 <= start_ms s /\ end_ms s <= fd * (len frames - 1) /\
                     (fd | start_ms s) /\ (fd | end_ms s)) mid /\
    exists lo', lo <= lo' /\ rest lo' /\ (mid <> [] -> 1 <= lo').
Proof.
  intros Hfd. induction mid as [| s mid IH]; intros lo Hlo; cbn [cut_from].
  - intros Hrest. split; [constructor |]. exists lo.
    split; [lia |]. split; [exact Hrest | congruence].
  - intros (a & b & Ha & Hab & Hb & -> & Hmore).
    destruct (IH b ltac:(lia) Hmore) as (Hall & lo' & Hlo' & Hrest & _).
    split.
    + constructor; [| exact Hall]. cbn [start_ms end_ms fst snd].
      repeat split.
      * apply Z.mul_nonneg_nonneg; lia.
      * apply Z.mul_le_mono_nonneg_l; lia.
      * apply Z.divide_factor_l.
      * apply Z.divide_factor_l.
    + exists lo'. split; [lia |]. split; [exact Hrest |]. intros _. lia.
Qed.

(** X11: with a positive frame duration every segment starts at
    [- frame_duration_ms] or later and ends at
    [frame_duration_ms * len(frames)] or earlier, and both stamps are
    multiples of the frame duration.  A negative start is only possible for
    a segment that is the only one yielded, and it is then exactly
    [- frame_duration_ms]. *)
Theorem segment_times_bounded {V : Type}
    (is_speech : V -> list byte -> Z -> result bool * V)
    (sample_rate frame_duration_ms padding_duration_ms : Z)
    (threshold : float) (frames : list Frame) (v : V) :
  0 < frame_duration_ms ->
  let segs := segments (vad_collector sample_rate frame_duration_ms
                          padding_duration_ms threshold is_speech v frames) in
  (forall s, In s segs ->
     - frame_duration_ms <= start_ms s /\
     end_ms s <= frame_duration_ms * len frames /\
     (frame_duration_ms | start_ms s) /\ (frame_duration_ms | end_ms s)) /\
  (forall s, In s segs -> start_ms s < 0 ->
     segs = [s] /\ start_ms s = - frame_duration_ms).
Proof.
  intros Hfd segs.
  destruct (vad_collector_cut is_speech sample_rate frame_duration_ms
              padding_duration_ms threshold frames v)
    as (mid & final & Hsegs & Hcut).
  fold segs in Hsegs.
  destruct (cut_from_bounds _ _ _ _ Hfd 0 ltac:(lia) Hcut)
    as (Hmid & lo & Hlo & Hfinal & Hne).
  rewrite Forall_forall in Hmid. rewrite Hsegs. pose proof (len_nonneg frames).
  split.
  - intros s Hin. apply in_app_or in Hin as [Hin | Hin].
    + destruct (Hmid s Hin) as (H1 & H2 & H3 & H4).
      repeat split; try assumption; nia.
    + destruct Hfinal as [-> | (a & Ha & HaN & ->)]; [destruct Hin |].
      destruct Hin as [<- | []]. cbn [start_ms end_ms fst snd].
      repeat split; try lia; try apply Z.divide_factor_l. nia.
  - intros s Hin Hneg. apply in_app_or in Hin as [Hin | Hin].
    + destruct (Hmid s Hin) as (H1 & _). lia.
    + destruct Hfinal as [-> | (a & Ha & HaN & ->)]; [destruct Hin |].
      destruct Hin as [<- | []]. cbn [start_ms fst snd] in *.
      assert (a = 0) as -> by nia.
      destruct mid as [| m mid]; [split; [reflexivity | lia] |].
      specialize (Hne ltac:(discriminate)). lia.
Qed.

Lemma segment_times_bounded_witness :
  Forall (fun s => - 30 <= start_ms s /\
                   end_ms s <= 30 * len (sample_frames 8) /\
                   (30 | start_ms s) /\ (30 | end_ms s))
         (segments (vad_collector 16000 30 300 0.5 always_voiced tt
                      (sample_frames 8))).
Proof.
  apply Forall_forall.
  apply (proj1 (segment_times_bounded always_voiced 16000 30 300 0.5
                  (sample_frames 8) tt ltac:(lia))).
Defined.


(** ** How long a segment is *)

Section MinSpan.

Variable V : Type.
Variable is_speech : V -> list byte -> Z -> result bool * V.
Variable sample_rate frame_duration_ms padding_duration_ms : Z.
Variable threshold : float.
Variable maxlen : Z.
Hypothesis ring_buffer_made :
  new_ring_buffer padding_duration_ms frame_duration_ms = Ok maxlen.
Hypothesis duration_pos : 0 < frame_duration_ms.

(** No count below [t] exceeds [threshold * maxlen]. *)
Variable t : Z.
Hypothesis t_least : forall k, 0 <= k < t -> exceeds threshold maxlen k = false.

Local Abbreviation loop :=
  (collect_loop V is_speech sample_rate frame_duration_ms threshold maxlen).
Local Abbreviation body := (collect_frame frame_duration_ms threshold maxlen).

Lemma exceeds_at_least (k : Z) :
  0 <= k -> exceeds threshold maxlen k = true -> t <= k.
Proof.
  intros Hk He. destruct (Z_lt_le_dec k t) as [Hlt |]; [| assumption].
  rewrite t_least in He by lia. discriminate.
Qed.

(** Before the frame of index [i]: a TRIGGERED segmenter has collected
    the [t] or more frames that triggered it and every frame pushed into
    the buffer since. *)
Local Abbreviation collected := (fun (i : Z) (st : state) =>
  0 <= i /\
  (triggered st = false ->
   voiced_frames st = [] /\ len (ring_buffer st) <= i) /\
  (triggered st = true ->
   t + len (ring_buffer st) <= len (voiced_frames st) /\
   len (voiced_frames st) <= i)).

Lemma collect_frame_span (i : Z) (f : Frame) (speech : bool) (st : state) :
  collected i st ->
  collected (i + 1) (fst (body i f speech st)) /\
  Forall (fun s => frame_duration_ms * (2 * t - 1) <= end_ms s - start_ms s)
         (snd (body i f speech st)).
Proof.
  intros (Hi & Hoff & Hon). unfold collect_frame.
  pose proof (deque_append_len maxlen (ring_buffer st) (f, speech)) as Hrb.
  pose proof (len_nonneg (deque_append maxlen (ring_buffer st) (f, speech))).
  destruct (triggered st); cbn [negb].
  - destruct (Hon eq_refl) as [Hvf Hle].
    pose proof (num_unvoiced_le
                  (deque_append maxlen (ring_buffer st) (f, speech))) as Hnum.
    destruct (exceeds _ _ (num_unvoiced _)) eqn:He;
      cbn [fst snd triggered voiced_frames ring_buffer];
      rewrite ?len_app; change (len [f]) with 1.
    + apply exceeds_at_least in He; [| lia].
      split; [repeat split; try lia; try discriminate; cbn; lia |].
      constructor; [| constructor]. cbn [start_ms end_ms fst snd].
      rewrite <- Z.mul_sub_distr_l. apply Z.mul_le_mono_nonneg_l; lia.
    + split; [| constructor].
      split; [lia |]. split; [discriminate | intros _; lia].
  - destruct (Hoff eq_refl) as [Hvf Hle].
    pose proof (num_voiced_le
                  (deque_append maxlen (ring_buffer st) (f, speech))) as Hnum.
    destruct (exceeds _ _ (num_voiced _)) eqn:He;
      cbn [fst snd triggered voiced_frames ring_buffer];
      (split; [| constructor]).
    + apply exceeds_at_least in He; [| lia].
      assert (Hmap : len (map fst (deque_append maxlen (ring_buffer st)
                                     (f, speech)))
                     = len (deque_append maxlen (ring_buffer st) (f, speech)))
        by (unfold len; now rewrite length_map).
      rewrite Hvf. cbn [app]. rewrite Hmap.
      change (len (@nil (Frame * bool))) with 0.
      split; [lia |]. split; [discriminate | intros _; lia].
    + split; [lia |]. split; [intros _; split; [assumption | lia] | discriminate].
Qed.

(** X12: when no count below [t] exceeds [threshold * maxlen], every
    segment yielded inside the loop spans at least [2t - 1] frame durations
    and the flushed one, if there is one, at least [t + 1]: shorter bursts
    of speech are never reported on their own. *)
Theorem segment_min_span (frames : list Frame) (v : V) :
  exists mid final,
    mid = fst (fst (loop 0 None frames init_state v)) /\
    segments (vad_collector sample_rate frame_duration_ms
                padding_duration_ms threshold is_speech v frames)
    = mid ++ final /\
    (length final <= 1)%nat /\
    Forall (fun s => frame_duration_ms * (2 * t - 1)
                     <= end_ms s - start_ms s) mid /\
    Forall (fun s => frame_duration_ms * (t + 1)
                     <= end_ms s - start_ms s) final.
Proof.
  unfold vad_collector. rewrite ring_buffer_made. unfold collect.
  destruct (loop 0 None frames init_state v) as [[segs r] v'] eqn:Hloop.
  assert (Hinit : collected 0 init_state)
    by (cbn; repeat split; try lia; discriminate).
  destruct (collect_loop_invariant V is_speech sample_rate frame_duration_ms
              threshold maxlen collected
              (fun _ s => frame_duration_ms * (2 * t - 1)
                          <= end_ms s - start_ms s)
              collect_frame_span frames 0 None init_state v segs r v'
              Hinit Hloop) as [Hsegs Hfinal].
  assert (Hmid : Forall (fun s => frame_duration_ms * (2 * t - 1)
                                  <= end_ms s - start_ms s) segs).
  { eapply Forall_impl; [| exact Hsegs]. now intros s (_ & _ & Hs). }
  cbn [fst].
  destruct r as [[st last] | e]; cbn [segments].
  2:{ exists segs, []. rewrite app_nil_r. repeat split; auto. }
  pose proof (collect_loop_index _ _ _ _ _ _ _ _ _ _ _ _ _ _ _ Hloop) as Hlast.
  destruct (Hfinal _ _ eq_refl) as (_ & Hoff & Hon).
  unfold flush. destruct (voiced_frames st) as [| f0 vf] eqn:Hvf;
    cbn [segments].
  { exists segs, []. repeat split; auto. }
  destruct frames as [| f fs].
  { cbn in Hloop. injection Hloop as _ <- _ _. discriminate. }
  subst last. cbn [segments]. eexists segs, _.
  split; [reflexivity |]. split; [reflexivity |]. split; [cbn; lia |].
  split; [exact Hmid |]. constructor; [| constructor].
  destruct (triggered st);
    [| destruct (Hoff eq_refl) as [Hnil _]; congruence].
  destruct (Hon eq_refl) as [Hlen _].
  pose proof (len_nonneg (ring_buffer st)).
  cbn [start_ms end_ms fst snd]. rewrite <- Z.mul_sub_distr_l.
  apply Z.mul_le_mono_nonneg_l; lia.
Qed.

End MinSpan.

(** With the pipeline's setting [t] is 6.  Six voiced, six unvoiced and
    six voiced frames give a segment of 11 frame durations inside the loop
    and a flushed one of 7: both bounds are reached. *)
Lemma segment_min_span_witness :
  (exists mid final,
     mid = fst (fst (collect_loop _ scripted 16000 30 0.5 10 0 None
                       (sample_frames 18) init_state
                       (map Ok (repeat true 6 ++ repeat false 6
                                ++ repeat true 6)))) /\
     segments (vad_collector 16000 30 300 0.5 scripted
                 (map Ok (repeat true 6 ++ repeat false 6 ++ repeat true 6))
                 (sample_frames 18))
     = mid ++ final /\
     (length final <= 1)%nat /\
     Forall (fun s => 30 * (2 * 6 - 1) <= end_ms s - start_ms s) mid /\
     Forall (fun s => 30 * (6 + 1) <= end_ms s - start_ms s) final) /\
  map (fun s => (start_ms s, end_ms s))
    (segments (vad_collector 16000 30 300 0.5 scripted
                 (map Ok (repeat true 6 ++ repeat false 6 ++ repeat true 6))
                 (sample_frames 18)))
  = [(0, 330); (330, 540)].
Proof.
  split; [| vm_compute; reflexivity].
  refine (segment_min_span _ scripted 16000 30 300 0.5 10 eq_refl
            ltac:(lia) 6 _ (sample_frames 18) _).
  intros k Hk. rewrite exceeds_half_10. apply Z.ltb_ge. lia.
Defined.

(** ** What the segmenter reads of a frame *)

Lemma len_map {A B : Type} (g : A -> B) (l : list A) : len (map g l) = len l.
Proof. unfold len. now rewrite length_map. Qed.

Lemma deque_append_map {A B : Type} (g : A -> B) (maxlen : Z) (d : list A)
    (x : A) :
  map g (deque_append maxlen d x) = deque_append maxlen (map g d) (g x).
Proof.
  unfold deque_append.
  replace (map g d ++ [g x]) with (map g (d ++ [x])) by (now rewrite map_app).
  rewrite len_map. destruct (maxlen <? len (d ++ [x])); [| reflexivity].
  now destruct (d ++ [x]).
Qed.

Lemma num_voiced_bare (rb : list (Frame * bool)) :
  num_voiced (map (fun p => (bare (fst p), snd p)) rb) = num_voiced rb.
Proof.
  unfold num_voiced, len. f_equal.
  induction rb as [| [f b] rb IH]; cbn; [reflexivity |].
  destruct b; cbn; now rewrite IH.
Qed.

Lemma num_unvoiced_bare (rb : list (Frame * bool)) :
  num_unvoiced (map (fun p => (bare (fst p), snd p)) rb) = num_unvoiced rb.
Proof.
  unfold num_unvoiced, len. f_equal.
  induction rb as [| [f b] rb IH]; cbn; [reflexivity |].
  destruct b; cbn; now rewrite IH.
Qed.

Lemma join_bytes_bare (fs : list Frame) :
  join_bytes (map bare fs) = join_bytes fs.
Proof.
  unfold join_bytes. f_equal. rewrite map_map. now apply map_ext.
Qed.

Section BareFrames.

Variable V : Type.
Variable is_speech : V -> list byte -> Z -> result bool * V.
Variable sample_rate frame_duration_ms : Z.
Variable threshold : float.
Variable maxlen : Z.

Local Abbreviation loop :=
  (collect_loop V is_speech sample_rate frame_duration_ms threshold maxlen).
Local Abbreviation body := (collect_frame frame_duration_ms threshold maxlen).

(** The loop body does the same on frames reduced to their bytes. *)
Lemma collect_frame_bare (i : Z) (f : Frame) (speech : bool) (st : state) :
  body i (bare f) speech (bare_state st)
  = (bare_state (fst (body i f speech st)), snd (body i f speech st)).
Proof.
  assert (Hpush : deque_append maxlen
                    (map (fun p => (bare (fst p), snd p)) (ring_buffer st))
                    (bare f, speech)
                  = map (fun p => (bare (fst p), snd p))
                      (deque_append maxlen (ring_buffer st) (f, speech)))
    by (symmetry;
        apply (deque_append_map (fun p : Frame * bool => (bare (fst p), snd p)))).
  unfold collect_frame.
  cbn [bare_state ring_buffer voiced_frames triggered].
  rewrite Hpush, num_voiced_bare, num_unvoiced_bare.
  destruct (triggered st); cbn [negb].
  - destruct (exceeds _ _ (num_unvoiced _));
      cbn [fst snd]; unfold bare_state;
      cbn [ring_buffer voiced_frames triggered map].
    + change [bare f] with (map bare [f]).
      now rewrite <- map_app, join_bytes_bare, len_map.
    + now rewrite map_app.
  - destruct (exceeds _ _ (num_voiced _));
      cbn [fst snd]; unfold bare_state;
      cbn [ring_buffer voiced_frames triggered map];
      [| reflexivity].
    rewrite map_app, !map_map. reflexivity.
Qed.

Lemma collect_loop_bare (frames : list Frame) :
  forall i last st v,
    loop i last (map bare frames) (bare_state st) v
    = let '(segs, r, v') := loop i last frames st v in
      (segs,
       match r with
       | Ok (st', last') => Ok (bare_state st', last')
       | Raise e => Raise e
       end, v').
Proof.
  induction frames as [| f rest IH]; intros i last st v;
    cbn [map collect_loop]; [reflexivity |].
  cbn [bare bytes].
  destruct (is_speech v (bytes f) sample_rate) as [[speech | e] v1];
    [| reflexivity].
  fold (bare f). rewrite collect_frame_bare.
  destruct (body i f speech st) as [st1 out]. cbn [fst snd].
  rewrite IH.
  now destruct (loop (i + 1) (Some i) rest st1 v1) as [[s1 r1] v2].
Qed.

Lemma flush_bare (st : state) (last : option Z) :
  flush frame_duration_ms (bare_state st) last
  = flush frame_duration_ms st last.
Proof.
  unfold flush, bare_state. cbn [voiced_frames].
  rewrite join_bytes_bare, len_map.
  now destruct (voiced_frames st).
Qed.

Lemma collect_bare (frames : list Frame) (v : V) :
  collect V is_speech sample_rate frame_duration_ms threshold maxlen
    (map bare frames) v
  = collect V is_speech sample_rate frame_duration_ms threshold maxlen
      frames v.
Proof.
  unfold collect.
  change init_state with (bare_state init_state) at 1.
  rewrite collect_loop_bare.
  destruct (loop 0 None frames init_state v) as [[segs [[st last] | e]] v'];
    [| reflexivity].
  now rewrite flush_bare.
Qed.

End BareFrames.

(** X13: [vad_collector] reads nothing of a frame but its bytes: two
    frame sequences with the same bytes, whatever their timestamps and
    durations, give the same run.  The stamps of the segments come from the
    frame indices and [frame_duration_ms] alone. *)
Theorem vad_collector_reads_bytes_only {V : Type}
    (is_speech : V -> list byte -> Z -> result bool * V)
    (sample_rate frame_duration_ms padding_duration_ms : Z)
    (threshold : float) (frames1 frames2 : list Frame) (v : V) :
  map bytes frames1 = map bytes frames2 ->
  vad_collector sample_rate frame_duration_ms padding_duration_ms threshold
    is_speech v frames1
  = vad_collector sample_rate frame_duration_ms padding_duration_ms threshold
      is_speech v frames2.
Proof.
  intros Hbytes. unfold vad_collector.
  destruct (new_ring_buffer padding_duration_ms frame_duration_ms)
    as [maxlen | e]; [| reflexivity].
  assert (Hbare : forall fs, map bare fs
                  = map (fun b => mkFrame b 0 0) (map bytes fs))
    by (intros fs; rewrite map_map; reflexivity).
  rewrite <- (collect_bare V is_speech sample_rate frame_duration_ms threshold
                maxlen frames1 v).
  rewrite <- (collect_bare V is_speech sample_rate frame_duration_ms threshold
                maxlen frames2 v).
  now rewrite (Hbare frames1), (Hbare frames2), Hbytes.
Qed.

Lemma vad_collector_reads_bytes_only_witness :
  vad_collector 16000 30 60 0.5 scripted script_21 (sample_frames 21)
  = vad_collector 16000 30 60 0.5 scripted script_21
      (map bare (sample_frames 21)).
Proof.
  apply (vad_collector_reads_bytes_only scripted 16000 30 60 0.5
           (sample_frames 21) (map bare (sample_frames 21)) script_21).
  rewrite map_map. reflexivity.
Defined.

(** ** The pipeline at 16000 Hz *)

Lemma Forall_slice {A : Type} (P : A -> Prop) (l : list A) (a b : Z) :
  Forall P l -> 0 <= a <= b -> b <= len l -> Forall P (slice l a b).
Proof.
  intros Hl Ha Hb. rewrite slice_within by assumption.
  rewrite Forall_forall in *. intros x Hx. apply Hl.
  rewrite <- (firstn_skipn (Z.to_nat a) l). apply in_or_app. right.
  rewrite <- (firstn_skipn (Z.to_nat (b - a)) (skipn (Z.to_nat a) l)).
  apply in_or_app. now left.
Qed.

Lemma join_bytes_len (n : Z) (fs : list Frame) :
  Forall (fun f => len (bytes f) = n) fs ->
  len (join_bytes fs) = n * len fs.
Proof.
  unfold join_bytes. induction 1 as [| f fs Hf _ IH]; cbn [map concat].
  - change (len (@nil byte)) with 0. change (len (@nil Frame)) with 0. lia.
  - rewrite len_app, len_cons, IH, Hf. lia.
Qed.

Lemma tiles_len (n : Z) (d : float) (audio : list byte) :
  0 < n ->
  Forall (fun f => len (bytes f) = n)
         (map (frame_at n d audio) (seq 0 (frame_count n (len audio)))).
Proof.
  intros Hn. apply Forall_forall. intros f Hf.
  apply in_map_iff in Hf as (k & <- & Hk). apply in_seq in Hk.
  assert (Hlt : (k <? frame_count n (len audio))%nat = true)
    by (apply Nat.ltb_lt; lia).
  rewrite <- (frame_count_spec n audio Hn k) in Hlt. apply Z.ltb_lt in Hlt.
  cbn [frame_at bytes]. rewrite slice_len; lia.
Qed.

Lemma cut_from_ranges (fd : Z) (frames : list Frame) (rest : Z -> Prop)
    (mid : list Segment) :
  forall lo, 0 <= lo ->
    cut_from fd frames lo mid rest ->
    Forall (fun s => exists a b,
              0 <= a /\ a < b /\ b <= len frames /\
              s = (concat (map bytes (slice frames a b)),
                   fd * Z.max 0 (a - 1), fd * (b - 1))) mid /\
    exists lo', lo <= lo' /\ rest lo'.
Proof.
  induction mid as [| s mid IH]; intros lo Hlo; cbn [cut_from].
  - intros Hrest. split; [constructor |]. exists lo. split; [lia | exact Hrest].
  - intros (a & b & Ha & Hab & Hb & Hs & Hmore).
    destruct (IH b ltac:(lia) Hmore) as (Hall & lo' & Hlo' & Hrest).
    split.
    + constructor; [| exact Hall]. exists a, b. repeat split; try lia.
      exact Hs.
    + exists lo'. split; [lia | exact Hrest].
Qed.

(** The calls recorded by a recording classifier are those for an
    initial part of the frames. *)
Lemma logged_calls_prefix {V : Type}
    (is_speech : V -> list byte -> Z -> result bool * V)
    (sample_rate frame_duration_ms padding_duration_ms : Z)
    (threshold : float) (frames : list Frame) (v : V) :
  exists j,
    snd (vad_after (vad_collector sample_rate frame_duration_ms
                      padding_duration_ms threshold (logged is_speech)
                      (v, []) frames))
    = map (fun f => (bytes f, sample_rate)) (firstn j frames).
Proof.
  unfold vad_collector.
  destruct (new_ring_buffer padding_duration_ms frame_duration_ms)
    as [maxlen | e]; [| now exists 0%nat].
  unfold collect.
  destruct (collect_loop V is_speech sample_rate frame_duration_ms threshold
              maxlen 0 None frames init_state v) as [[segs r] v'] eqn:Hloop.
  destruct (logged_loop V is_speech sample_rate frame_duration_ms threshold
              maxlen frames _ _ _ _ [] _ _ _ Hloop) as (j & _ & _ & ->).
  exists j. cbn [app].
  destruct r as [[st last] | e]; [| reflexivity].
  now destruct (flush frame_duration_ms st last).
Qed.

Section Pipeline.

Variable V : Type.
Variable is_speech : V -> list byte -> Z -> result bool * V.
Variable audio : AudioSegment.
Variable fuel : nat.
Hypothesis rate_16000 : frame_rate audio = 16000.
Hypothesis enough_fuel : (length (raw_data audio) < fuel)%nat.

Local Abbreviation frames :=
  (map (frame_at 960 d30 (raw_data audio))
       (seq 0 (frame_count 960 (len (raw_data audio))))).

(** At 16000 Hz the framer cuts 960-byte frames and the ring buffer has
    10 entries. *)
Lemma vad_segments_16000 (W : Type)
    (classify : W -> list byte -> Z -> result bool * W) (w : W) :
  vad_segments fuel audio classify w
  = Some (vad_collector 16000 30 300 0.5 classify w frames).
Proof.
  unfold vad_segments.
  assert (Hbuf : new_ring_buffer 300 30 = Ok 10) by (vm_compute; reflexivity).
  rewrite Hbuf, rate_16000.
  rewrite (frame_generator_tiles 16000 30 960 d30 (raw_data audio) fuel);
    [reflexivity | vm_compute; reflexivity | vm_compute; reflexivity | lia |].
  apply frame_count_fuel; [lia | exact enough_fuel].
Qed.

(** X14: in the pipeline every call of the classifier gets exactly 960
    bytes, 30 ms of 16-bit samples, and the sample rate 16000; there are at
    most [(len(raw_data) - 1) // 960] calls. *)
Theorem pipeline_classifier_input (v : V) :
  exists r,
    vad_segments fuel audio (logged is_speech) (v, []) = Some r /\
    Forall (fun c => len (fst c) = 960 /\ snd c = 16000) (snd (vad_after r)) /\
    len (snd (vad_after r)) <= Z.max 0 ((len (raw_data audio) - 1) / 960).
Proof.
  eexists. split; [apply vad_segments_16000 |].
  destruct (logged_calls_prefix is_speech 16000 30 300 0.5 frames v)
    as [j ->].
  pose proof (tiles_len 960 d30 (raw_data audio) ltac:(lia)) as Hlen.
  split.
  - apply Forall_forall. intros c Hc.
    apply in_map_iff in Hc as (f & <- & Hf). cbn [fst snd].
    split; [| reflexivity].
    rewrite Forall_forall in Hlen. apply Hlen.
    rewrite <- (firstn_skipn j frames). apply in_or_app. now left.
  - rewrite len_map. unfold len at 1. rewrite length_firstn.
    rewrite length_map, length_seq. unfold frame_count. lia.
Qed.

(** X15: in the pipeline every segment is a whole, positive number of
    960-byte frames, starts at -30 ms or later and ends inside the audio: at
    32 bytes per millisecond its end stamp is before the end of
    [raw_data]. *)
Theorem pipeline_segments_in_audio (v : V) :
  exists r,
    vad_segments fuel audio is_speech v = Some r /\
    forall s, In s (segments r) ->
      -30 <= start_ms s /\
      32 * end_ms s < len (raw_data audio) /\
      exists k, 0 < k /\ len (fst (fst s)) = 960 * k.
Proof.
  eexists. split; [apply vad_segments_16000 |].
  destruct (vad_collector_cut is_speech 16000 30 300 0.5 frames v)
    as (mid & final & -> & Hcut).
  destruct (cut_from_ranges _ _ _ _ 0 ltac:(lia) Hcut)
    as (Hmid & lo & Hlo & Hfinal).
  pose proof (tiles_len 960 d30 (raw_data audio) ltac:(lia)) as Hlen.
  assert (HN : 0 < len frames ->
               960 * len frames <= len (raw_data audio) - 1).
  { assert (Hcount : len frames
                     = Z.of_nat (frame_count 960 (len (raw_data audio))))
      by (rewrite len_map; unfold len at 1; now rewrite length_seq).
    rewrite Hcount. unfold frame_count. intros Hpos.
    pose proof (Z.mul_div_le (len (raw_data audio) - 1) 960 ltac:(lia)).
    lia. }
  rewrite Forall_forall in Hmid.
  intros s Hin. apply in_app_or in Hin as [Hin | Hin].
  - destruct (Hmid s Hin) as (a & b & Ha & Hab & Hb & ->).
    cbn [start_ms end_ms fst snd].
    split; [lia |]. split; [lia |].
    exists (b - a). split; [lia |].
    match goal with
    | |- context [concat (map bytes ?l)] =>
        change (concat (map bytes l)) with (join_bytes l)
    end.
    rewrite (join_bytes_len 960) by (apply Forall_slice; [exact Hlen | lia | lia]).
    rewrite slice_len by lia. reflexivity.
  - destruct Hfinal as [-> | (a & Ha & HaN & ->)]; [destruct Hin |].
    destruct Hin as [<- | []]. cbn [start_ms end_ms fst snd].
    split; [lia |]. split; [lia |].
    exists (len frames - a). split; [lia |].
    match goal with
    | |- context [concat (map bytes ?l)] =>
        change (concat (map bytes l)) with (join_bytes l)
    end.
    rewrite (join_bytes_len 960) by (apply Forall_slice; [exact Hlen | lia | lia]).
    rewrite slice_len by lia. reflexivity.
Qed.

End Pipeline.


(** Eleven frames of silence that the classifier calls voiced: eleven
    calls, and one segment of 11 * 960 bytes stamped -30 to 330. *)
Lemma pipeline_classifier_input_witness :
  exists r,
    vad_segments (Z.to_nat 10562) audio_10561 (logged always_voiced) (tt, [])
    = Some r /\
    Forall (fun c => len (fst c) = 960 /\ snd c = 16000) (snd (vad_after r)) /\
    len (snd (vad_after r)) <= Z.max 0 ((len (raw_data audio_10561) - 1) / 960).
Proof.
  refine (pipeline_classifier_input unit always_voiced audio_10561
            (Z.to_nat 10562) eq_refl _ tt).
  cbn [audio_10561 raw_data]. unfold pcm_10561. rewrite repeat_length. lia.
Defined.

Lemma pipeline_segments_in_audio_witness :
  exists r,
    vad_segments (Z.to_nat 10562) audio_10561 always_voiced tt = Some r /\
    forall s, In s (segments r) ->
      -30 <= start_ms s /\
      32 * end_ms s < len (raw_data audio_10561) /\
      exists k, 0 < k /\ len (fst (fst s)) = 960 * k.
Proof.
  refine (pipeline_segments_in_audio unit always_voiced audio_10561
            (Z.to_nat 10562) eq_refl _ tt).
  cbn [audio_10561 raw_data]. unfold pcm_10561. rewrite repeat_length. lia.
Defined.

(** ** Silence, and runs that go on *)

Section Streaming.

Variable V : Type.
Variable is_speech : V -> list byte -> Z -> result bool * V.
Variable sample_rate frame_duration_ms padding_duration_ms : Z.
Variable threshold : float.
Variable maxlen : Z.
Hypothesis ring_buffer_made :
  new_ring_buffer padding_duration_ms frame_duration_ms = Ok maxlen.

Local Abbreviation loop :=
  (collect_loop V is_speech sample_rate frame_duration_ms threshold maxlen).
Local Abbreviation run :=
  (vad_collector sample_rate frame_duration_ms padding_duration_ms threshold
     is_speech).

Lemma num_voiced_snoc (rb : list (Frame * bool)) (f : Frame) (b : bool) :
  num_voiced (rb ++ [(f, b)]) = num_voiced rb + (if b then 1 else 0).
Proof.
  unfold num_voiced. rewrite filter_app, len_app. cbn [filter snd].
  now destruct b.
Qed.

Lemma num_voiced_tl (rb : list (Frame * bool)) :
  num_voiced (tl rb) <= num_voiced rb.
Proof.
  destruct rb as [| [f b] rb]; [cbn; lia |]. unfold num_voiced. cbn [tl filter snd].
  destruct b; rewrite ?len_cons; lia.
Qed.

Lemma all_unvoiced_idle (frames : list Frame) :
  forall i last st v,
    exceeds threshold maxlen 0 = false ->
    answers is_speech sample_rate v frames = map (fun _ => Ok false) frames ->
    triggered st = false -> voiced_frames st = [] ->
    num_voiced (ring_buffer st) = 0 ->
    exists st' last' v',
      loop i last frames st v = ([], Ok (st', last'), v') /\
      triggered st' = false /\ voiced_frames st' = [].
Proof.
  induction frames as [| f rest IH]; intros i last st v H0 Hans Hidle Hvf Hnum;
    cbn [collect_loop answers map] in *.
  - eauto 6.
  - destruct (is_speech v (bytes f) sample_rate) as [[speech | e] v1];
      [| discriminate].
    injection Hans as -> Hans. unfold collect_frame. rewrite Hidle. cbn [negb].
    assert (Hzero : num_voiced (deque_append maxlen (ring_buffer st) (f, false))
                    = 0).
    { pose proof (num_voiced_le (deque_append maxlen (ring_buffer st)
                                   (f, false))) as [Hnn _].
      pose proof (num_voiced_snoc (ring_buffer st) f false) as Hs.
      pose proof (num_voiced_tl (ring_buffer st ++ [(f, false)])) as Ht.
      unfold deque_append in *.
      destruct (maxlen <? len (ring_buffer st ++ [(f, false)])); lia. }
    rewrite Hzero, H0.
    destruct (IH (i + 1) (Some i)
                (mkState (deque_append maxlen (ring_buffer st) (f, false))
                         false (voiced_frames st)) v1 H0 Hans eq_refl Hvf Hzero)
      as (st' & last' & v' & -> & Hidle' & Hvf').
    eauto 6.
Qed.

(** X16: when the classifier calls every frame unvoiced, and zero does
    not exceed [threshold * maxlen], nothing is yielded. *)
Theorem all_unvoiced_no_segments (frames : list Frame) (v : V) :
  exceeds threshold maxlen 0 = false ->
  answers is_speech sample_rate v frames = map (fun _ => Ok false) frames ->
  segments (run v frames) = [] /\ ending (run v frames) = Ok tt.
Proof.
  intros H0 Hans. unfold vad_collector. rewrite ring_buffer_made.
  unfold collect.
  destruct (all_unvoiced_idle frames 0 None init_state v H0 Hans
              eq_refl eq_refl eq_refl)
    as (st & last & v' & -> & _ & Hvf).
  unfold flush. rewrite Hvf. split; reflexivity.
Qed.

(** X17: what has been yielded is never taken back: the segments the
    loop has yielded after the frames [pre] are an initial part of what
    [vad_collector] yields on [pre ++ post], whatever comes in [post]. *)
Theorem yielded_segments_stay (pre post : list Frame) (v : V)
    (segs : list Segment) (r : result (state * option Z)) (v1 : V) :
  loop 0 None pre init_state v = (segs, r, v1) ->
  exists more, segments (run v (pre ++ post)) = segs ++ more.
Proof.
  intros Hpre. unfold vad_collector. rewrite ring_buffer_made.
  unfold collect. rewrite collect_loop_app, Hpre.
  destruct r as [[st last] | e]; [| exists []; now rewrite app_nil_r].
  destruct (loop (0 + len pre) last post st v1) as [[s2 r2] v2].
  destruct r2 as [[st2 last2] | e]; [| now exists s2].
  destruct (flush frame_duration_ms st2 last2) as [tail | e]; cbn [segments].
  - exists (s2 ++ tail). now rewrite app_assoc.
  - now exists s2.
Qed.

(** X18: after any run, the ring buffer of a NOT_TRIGGERED segmenter
    holds the most recent frames, in order, and [voiced_frames] of a
    TRIGGERED one is the most recent stretch of frames: nothing older is
    kept and no frame in between is missing. *)
Theorem locals_hold_latest_frames (frames : list Frame) (v : V)
    (segs : list Segment) (st : state) (last : option Z) (v' : V) :
  loop 0 None frames init_state v = (segs, Ok (st, last), v') ->
  (triggered st = false ->
   map fst (ring_buffer st)
   = slice frames (len frames - len (ring_buffer st)) (len frames)) /\
  (triggered st = true ->
   voiced_frames st
   = slice frames (len frames - len (voiced_frames st)) (len frames)).
Proof.
  intros Hloop.
  assert (Hinit : holds_run frames 0 0 init_state).
  { unfold holds_run. pose proof (len_nonneg frames).
    repeat split; try lia; try discriminate.
    exists 0. split; [lia |]. cbn [init_state ring_buffer map]. symmetry.
    apply slice_nil. lia. }
  pose proof (collect_loop_cut V is_speech sample_rate frame_duration_ms
                threshold maxlen frames frames 0 0 None init_state v segs _ v'
                Hinit eq_refl Hloop) as Hcut.
  destruct (cut_from_ranges _ _ _ _ 0 ltac:(lia) Hcut)
    as (_ & lo & Hlo & Hend).
  destruct (Hend _ _ eq_refl) as (_ & _ & Hoff & Hon).
  split; intros Htrig.
  - destruct (Hoff Htrig) as (_ & a & Ha & Hrb).
    assert (Hlen : len (ring_buffer st) = len frames - a)
      by (rewrite <- (len_map fst), Hrb; apply slice_len; lia).
    rewrite Hrb, Hlen. f_equal. lia.
  - destruct (Hon Htrig) as (a & Ha & Hvf).
    assert (Hlen : len (voiced_frames st) = len frames - a)
      by (rewrite Hvf; apply slice_len; lia).
    rewrite Hlen. rewrite Hvf at 1. f_equal. lia.
Qed.

End Streaming.

Lemma all_unvoiced_no_segments_witness :
  segments (vad_collector 16000 30 300 0.5 never_voiced tt (sample_frames 21))
  = [].
Proof.
  apply (proj1 (all_unvoiced_no_segments unit never_voiced 16000 30 300 0.5 10
                  eq_refl (sample_frames 21) tt ltac:(vm_compute; reflexivity)
                  eq_refl)).
Defined.

(** The first segment of the 21-frame run is there after 8 frames. *)
Lemma yielded_segments_stay_witness :
  exists more,
    segments (vad_collector 16000 30 60 0.5 scripted script_21
                (sample_frames 8 ++ map sample_frame (seq 8 13)))
    = [(join_bytes (sample_frames 6), 0, 150)] ++ more.
Proof.
  refine (yielded_segments_stay _ scripted 16000 30 60 0.5 2 eq_refl
            (sample_frames 8) (map sample_frame (seq 8 13)) script_21
            _ _ _ _).
  vm_compute; reflexivity.
Defined.

Lemma locals_hold_latest_frames_witness :
  sample_frames 8
  = slice (sample_frames 8) (len (sample_frames 8) - len (sample_frames 8))
      (len (sample_frames 8)).
Proof.
  refine (proj2 (locals_hold_latest_frames unit always_voiced 16000 30 0.5 10
                   (sample_frames 8) tt []
                   (mkState [(sample_frame 6, true); (sample_frame 7, true)]
                            true (sample_frames 8))
                   (Some 7) tt _) eq_refl).
  vm_compute; reflexivity.
Defined.


(** ** Where an exception of the pipeline comes from *)

(** X7: in [vad_segment_generator], over audio that [frame_generator]
    cuts into finitely many frames, an exception that ends the segment
    generator comes from the set-up of [frame_generator] (as with a frame
    rate of 0) or from the classifier.  Making the ring buffer for 300 ms of
    padding and 30 ms frames never raises, and neither does the code after
    the loop: [frame_index] is bound whenever it is read. *)
Theorem vad_segments_errors {V : Type}
    (is_speech : V -> list byte -> Z -> result bool * V) (fuel : nat)
    (audio : AudioSegment) (v : V) (r : Run V) (e : exn) :
  vad_segments fuel audio is_speech v = Some r ->
  ending r = Raise e ->
  new_ring_buffer 300 30 = Ok 10 /\
  (frame_generator fuel 30 (raw_data audio) (frame_rate audio) = Raise e \/
   exists frames,
     frame_generator fuel 30 (raw_data audio) (frame_rate audio)
     = Ok (Some frames) /\
     In (Raise e) (answers is_speech (frame_rate audio) v frames)).
Proof.
  assert (Hbuf : new_ring_buffer 300 30 = Ok 10) by (vm_compute; reflexivity).
  intros Hrun Hend. split; [exact Hbuf |].
  unfold vad_segments in Hrun. rewrite Hbuf in Hrun.
  destruct (frame_generator fuel 30 (raw_data audio) (frame_rate audio))
    as [[frames |] | e'].
  - right. exists frames. split; [reflexivity |].
    injection Hrun as <-.
    destruct (vad_collector_errors is_speech (frame_rate audio) 30 300 0.5
                frames v e Hend) as [Hbad | Hin]; [congruence | exact Hin].
  - discriminate.
  - left. injection Hrun as <-. cbn in Hend. congruence.
Qed.

(** A frame rate of 0 ends the generator with ZeroDivisionError before
    the classifier is asked anything. *)
Lemma vad_segments_errors_witness :
  new_ring_buffer 300 30 = Ok 10 /\
  (frame_generator 10 30 (raw_data audio_rate_0) (frame_rate audio_rate_0)
   = Raise ZeroDivisionError \/
   exists frames,
     frame_generator 10 30 (raw_data audio_rate_0) (frame_rate audio_rate_0)
     = Ok (Some frames) /\
     In (Raise ZeroDivisionError)
        (answers always_voiced (frame_rate audio_rate_0) tt frames)).
Proof.
  apply (vad_segments_errors always_voiced 10 audio_rate_0 tt
           (mkRun [] (Raise ZeroDivisionError) tt) ZeroDivisionError).
  - vm_compute; reflexivity.
  - reflexivity.
Defined.
